(** * chartmuseum_sync: the chart diff and the sync procedure of [main.go]

    A shallow embedding of [main.go] and the properties of its
    specification.  Go maps are [gmap]s, Go slices are lists, the set
    [map[string]struct{}] is a [gset string]; the HTTP exchanges of the
    program go through an explicit world state. *)

From Stdlib Require Import ZArith Ascii String.
From stdpp Require Import gmap strings list fin_maps.

Set Warnings "-register-all,-clear-no-such-hyp".

Local Open Scope string_scope.
Local Open Scope list_scope.
Local Open Scope Z_scope.

(** ** Data model *)

(** [type ChartVersion struct { Version string `json:"version"` }] *)
Record ChartVersion := mkChartVersion { Version : string }.

#[global] Instance ChartVersion_eq_dec : EqDecision ChartVersion.
Proof. solve_decision. Defined.

(** [type ChartData map[string][]ChartVersion].  The nil map and the empty
    map behave alike under [range] and lookup, the only operations the
    program applies to a [ChartData]; both are [∅]. *)
Abbreviation ChartData := (gmap string (list ChartVersion)).

(** The result type of [compareCharts], [map[string][]string]. *)
Abbreviation DiffResult := (gmap string (list string)).

(** ** compareCharts *)

Module Diff.

(** Lines 38-43: [versionSet2], the set of the version strings of the
    destination's records. *)
Definition versionSet (versions2 : list ChartVersion) : gset string :=
  fold_left (λ set v, {[ Version v ]} ∪ set) versions2 ∅.

(** [diff[chart] = append(diff[chart], v)]: reading an absent key of a Go
    map gives the nil slice. *)
Definition appendTo (chart v : string) (diff : DiffResult) : DiffResult :=
  <[chart := default [] (diff !! chart) ++ [v]]> diff.

(** Lines 44-48: the inner loop over the source records of one chart. *)
Definition collectMissing (chart : string) (versionSet2 : gset string)
    (versions1 : list ChartVersion) (diff : DiffResult) : DiffResult :=
  fold_left
    (λ diff v,
       if decide (Version v ∈ versionSet2) then diff
       else appendTo chart (Version v) diff)
    versions1 diff.

(** Lines 38-48: the body of the outer loop for one entry of [data1]. *)
Definition visitChart (data2 : ChartData) (diff : DiffResult)
    (entry : string * list ChartVersion) : DiffResult :=
  let '(chart, versions1) := entry in
  let versionSet2 :=
    match data2 !! chart with
    | Some versions2 => versionSet versions2
    | None => ∅
    end in
  collectMissing chart versionSet2 versions1 diff.

(** The outer loop run along one enumeration of the entries of [data1].
    Go leaves the order of [range] over a map unspecified. *)
Definition compareChartsAlong (entries : list (string * list ChartVersion))
    (data2 : ChartData) : DiffResult :=
  fold_left (visitChart data2) entries ∅.

(** [func compareCharts(data1, data2 ChartData) map[string][]string], along
    the enumeration [map_to_list]; [compareCharts_any_order] below shows
    that every other enumeration gives the same map. *)
Definition compareCharts (data1 data2 : ChartData) : DiffResult :=
  compareChartsAlong (map_to_list data1) data2.

(** *** Vocabulary of the statements *)

(** The version strings of an index's entry for a chart, in order; the
    empty sequence when the chart is absent. *)
Definition versionsOf (data : ChartData) (chart : string) : list string :=
  Version <$> default [] (data !! chart).

(** "The diff contains chart [c] with version [v]". *)
Definition contains (diff : DiffResult) (c v : string) : Prop :=
  ∃ vs, diff !! c = Some vs ∧ v ∈ vs.

(** The source version strings that are missing at the destination, in
    source order and with their multiplicity. *)
Definition missing (vs1 vs2 : list string) : list string :=
  filter (λ v, v ∉ vs2) vs1.

(** A Go map entry exists only once something was appended to it. *)
Definition entryOf (vs : list string) : option (list string) :=
  match vs with [] => None | _ => Some vs end.

End Diff.

(** ** JSON bodies

    [encoding/json] is not part of the repository.  A body is represented
    by what [json.Decoder.Decode] finds at the head of the stream: either
    one well-formed JSON value or none (a syntax error, an empty or a
    truncated stream).  What the decoder does with the value depends on the
    Go type it decodes into, and is written out below for the two types
    the program uses. *)

Module Json.

Inductive value :=
| JNull
| JBool (b : bool)
| JNumber (literal : string)
| JString (s : string)
| JArray (items : list value)
| JObject (members : list (string * value)).

Inductive payload :=
| Malformed (raw : string)
| WellFormed (v : value).

(** The Go [error] values that occur in the program. *)
Inductive error :=
| NetError (msg : string)               (* net/http transport failure *)
| URLError (msg : string)               (* the URL does not parse *)
| ReadError (msg : string)              (* reading a body fails *)
| SyntaxError                           (* encoding/json: not JSON *)
| UnmarshalTypeError                    (* encoding/json: wrong type *)
| MakingRequest (cause : error)         (* "error making request: %w" *)
| UnexpectedStatusCode (code : Z)       (* "unexpected status code: %d" *)
| DecodingJSON (cause : error)          (* "error decoding JSON: %w" *)
| MissingVersionKey.                    (* "missing 'version' key in JSON" *)

(** An object decoded into a Go map: a later member replaces an earlier
    one with the same key. *)
Definition objectMap {A} (members : list (string * A)) : gmap string A :=
  fold_left (λ m kv, <[kv.1 := kv.2]> m) members ∅.

(** Decoding into [map[string]interface{}] (line 121): [null] leaves the
    nil map and is no error, an object gives its members, every other
    value is a type error. *)
Definition decodeAny (body : payload) : gmap string value + error :=
  match body with
  | Malformed _ => inr SyntaxError
  | WellFormed JNull => inl ∅
  | WellFormed (JObject members) => inl (objectMap members)
  | WellFormed _ => inr UnmarshalTypeError
  end.

Definition upper (a : ascii) : ascii :=
  let n := nat_of_ascii a in
  if bool_decide (97 ≤ n ≤ 122)%nat then ascii_of_nat (n - 32) else a.

(** The case folding under which [encoding/json] matches an object key
    with a struct field: ASCII letters fold to upper case and U+017F
    (bytes C5 BF, the long s) folds to [S]. *)
Fixpoint foldName (key : string) : string :=
  match key with
  | EmptyString => EmptyString
  | String a tl =>
      match tl with
      | String b rest =>
          if bool_decide (nat_of_ascii a = 197 ∧ nat_of_ascii b = 191)%nat
          then String "S" (foldName rest)
          else String (upper a) (foldName tl)
      | EmptyString => String (upper a) EmptyString
      end
  end.

(** Decoding into the struct [ChartVersion]: the member named [version]
    must be a string or [null]; members of another name are ignored. *)
Definition decodeField (acc : ChartVersion + error) (member : string * value)
    : ChartVersion + error :=
  match acc with
  | inr e => inr e
  | inl record =>
      if bool_decide (foldName member.1 = "VERSION") then
        match member.2 with
        | JString s => inl (mkChartVersion s)
        | JNull => inl record
        | _ => inr UnmarshalTypeError
        end
      else inl record
  end.

Definition decodeChartVersion (v : value) : ChartVersion + error :=
  match v with
  | JNull => inl (mkChartVersion "")
  | JObject members => fold_left decodeField members (inl (mkChartVersion ""))
  | _ => inr UnmarshalTypeError
  end.

Fixpoint decodeEach {A B} (f : A → B + error) (l : list A) : list B + error :=
  match l with
  | [] => inl []
  | x :: rest =>
      match f x, decodeEach f rest with
      | inl y, inl ys => inl (y :: ys)
      | inr e, _ => inr e
      | _, inr e => inr e
      end
  end.

(** Decoding into [[]ChartVersion]. *)
Definition decodeVersions (v : value) : list ChartVersion + error :=
  match v with
  | JNull => inl []
  | JArray items => decodeEach decodeChartVersion items
  | _ => inr UnmarshalTypeError
  end.

(** Decoding into [ChartData] (line 29). *)
Definition decodeCharts (body : payload) : ChartData + error :=
  match body with
  | Malformed _ => inr SyntaxError
  | WellFormed JNull => inl ∅
  | WellFormed (JObject members) =>
      match decodeEach (λ kv, decodeVersions kv.2) members with
      | inl lists => inl (objectMap (zip members.*1 lists))
      | inr e => inr e
      end
  | WellFormed _ => inr UnmarshalTypeError
  end.

End Json.

(** ** The HTTP world

    [net/http] and the servers are the environment of the program.  The
    program is sequential, so the environment is a function from the
    requests sent so far (the last one being the current request) to the
    answer of the current one; any behaviour of the servers over one run,
    however stateful, is such a function. *)

Module Http.
Export Json.

(** The part of [*http.Response] the program reads: the status code and
    the body, with the error at which reading the body to its end breaks
    off, if any. *)
Record Response := mkResponse {
  StatusCode : Z;
  Body : payload;
  BodyErr : option string
}.

Inductive request :=
| GET (url : string)
| POST (url contentType : string) (data : payload).

(** The three results of [http.Get] and [Client.Do] that [net/http]
    documents: an error without response; an error with a response whose
    body is already closed (a refused redirect); a response without
    error. *)
Inductive reply :=
| Failed (msg : string)
| Refused (r : Response) (msg : string)
| Answered (r : Response).

(** One line of output for each print statement of the program, with the
    arguments of the statement. *)
Inductive line :=
| ErrorFetchingCharts (err1 err2 : option error)                     (* l.57 *)
| FailedToFetch (chart version server1 : string) (err : option error) (* l.76 *)
| FailedToRead (chart version : string) (err : option error)         (* l.82 *)
| FailedToCreateRequest (chart version : string) (err : option error) (* l.89 *)
| FailedToSync (chart version server2 : string) (err : option error) (* l.96 *)
| Text (s : string)                                            (* l.139-144 *)
| FlagUsage                                                          (* l.145 *)
| ErrorChecking (which url : string) (err : error).            (* l.150, 155 *)

(** The environment of one run.  [rangeOrder] is the order in which the
    Go runtime lets [range] visit the diff; whatever the order, every
    entry is visited once. *)
Record env := mkEnv {
  net : list request → reply;
  urlError : string → option string;
  rangeOrder : DiffResult → list (string * list string);
  rangeOrder_perm : ∀ diff, rangeOrder diff ≡ₚ map_to_list diff
}.

(** The observable state: the exchanges so far, oldest first; the bodies
    that are open, each named by the position of its exchange; the lines
    printed. *)
Record world := mkWorld {
  exchanges : list (request * reply);
  openBodies : gset nat;
  stdout : list line
}.

Definition start : world := mkWorld [] ∅ [].

(** A non-nil [*http.Response] of the program. *)
Record handle := mkHandle { bodyId : nat; response : Response }.

(** A call either returns or panics. *)
Inductive outcome (A : Type) :=
| Done (a : A)
| Panic (msg : string).
Arguments Done {A} a.
Arguments Panic {A} msg.

Definition M (A : Type) : Type := world → outcome A * world.

#[global] Instance M_ret : MRet M := λ A a w, (Done a, w).

#[global] Instance M_bind : MBind M := λ A B f m w,
  match m w with
  | (Done a, w') => f a w'
  | (Panic msg, w') => (Panic msg, w')
  end.

Definition panic {A} (msg : string) : M A := λ w, (Panic msg, w).

Definition println (l : line) : M unit := λ w,
  (Done tt, mkWorld (exchanges w) (openBodies w) (stdout w ++ [l])).

(** Sending a request: the exchange is recorded, and the body of a
    response that comes without error is open from then on. *)
Definition roundTrip (E : env) (req : request)
    : M (option handle * option error) := λ w,
  let id := length (exchanges w) in
  let answer := net E ((exchanges w).*1 ++ [req]) in
  let w' bodies := mkWorld (exchanges w ++ [(req, answer)]) bodies (stdout w) in
  match answer with
  | Failed msg =>
      (Done (None, Some (NetError msg)), w' (openBodies w))
  | Refused r msg =>
      (Done (Some (mkHandle id r), Some (NetError msg)), w' (openBodies w))
  | Answered r =>
      (Done (Some (mkHandle id r), None), w' ({[ id ]} ∪ openBodies w))
  end.

(** [http.Get(url)]: a URL that does not parse is an error before anything
    is sent. *)
Definition httpGet (E : env) (url : string) : M (option handle * option error) :=
  match urlError E url with
  | Some msg => mret (None, Some (URLError msg))
  | None => roundTrip E (GET url)
  end.

(** [http.NewRequest("POST", url, body)]. *)
Definition newRequest (E : env) (url : string) (data : payload)
    : option request * option error :=
  match urlError E url with
  | Some msg => (None, Some (URLError msg))
  | None => (Some (POST url "" data), None)
  end.

(** [req.Header.Set("Content-Type", v)]. *)
Definition setContentType (v : string) (req : request) : request :=
  match req with
  | POST url _ data => POST url v data
  | GET url => GET url
  end.

(** Reading a field of [resp]: a nil pointer panics. *)
Definition deref (resp : option handle) : M handle :=
  match resp with
  | Some h => mret h
  | None => panic "invalid memory address or nil pointer dereference"
  end.

(** Closing a closed body changes nothing. *)
Definition release (id : nat) : M unit := λ w,
  (Done tt, mkWorld (exchanges w) (openBodies w ∖ {[ id ]}) (stdout w)).

(** [resp.Body.Close()]. *)
Definition closeBody (resp : option handle) : M unit :=
  h ← deref resp; release (bodyId h).

(** [io.ReadAll(resp.Body)]. *)
Definition readAll (h : handle) : payload * option error :=
  (Body (response h), ReadError <$> BodyErr (response h)).

(** [err != nil]. *)
Definition notNil {A} (x : option A) : bool :=
  match x with Some _ => true | None => false end.

(** [err != nil || resp.StatusCode != code], evaluated left to right. *)
Definition errOrStatusNot (code : Z) (resp : option handle)
    (err : option error) : M bool :=
  if notNil err then mret true
  else h ← deref resp; mret (bool_decide (StatusCode (response h) ≠ code)).

(** A [for ... range] loop over a slice that updates the locals [S]. *)
Fixpoint forEach {A S} (body : A → S → M S) (l : list A) (s : S) : M S :=
  match l with
  | [] => mret s
  | x :: rest => s' ← body x s; forEach body rest s'
  end.

End Http.

(** ** The program *)

Module Sync.
Export Diff Http.

(** [func fetchCharts(url string) (ChartData, error)], lines 21-33.  The
    deferred [Close] runs when the function returns; the status code of
    the response is not read. *)
Definition fetchCharts (E : env) (url : string) : M (ChartData * option error) :=
  '(resp, err) ← httpGet E (url +:+ "/api/charts");
  if notNil err then mret (∅, err)
  else
    h ← deref resp;
    match decodeCharts (Body (response h)) with
    | inr e => closeBody resp;; mret (∅, Some e)
    | inl data => closeBody resp;; mret (data, None)
    end.

(** The progress tracker of [github.com/schollz/progressbar/v3], an
    external library: its total, its position and its label.  [Add]
    advances the position; the rendering is left out. *)
Record ProgressBar := mkBar {
  barMax : Z;
  barNum : Z;
  barDescription : string
}.

Definition Default (max : Z) (description : string) : ProgressBar :=
  mkBar max 0 description.

Definition Describe (description : string) (bar : ProgressBar) : ProgressBar :=
  mkBar (barMax bar) (barNum bar) description.

Definition Add (n : Z) (bar : ProgressBar) : ProgressBar :=
  mkBar (barMax bar) (barNum bar + n) (barDescription bar).

(** The locals of [syncCharts] that the transfer loop updates.  Go's [int]
    has 64 bits; both counters are bounded by the number of version
    records held in memory, so no addition wraps around. *)
Record locals := mkLocals {
  chartsSynced : Z;
  bar : ProgressBar
}.

(** Lines 73-104: the body of the inner loop for one diffed version.
    Returning the locals unchanged is [continue]. *)
Definition transfer (E : env) (server1 server2 chart version : string)
    (loc : locals) : M locals :=
  let chartURL := server1 +:+ "/charts/" +:+ chart +:+ "-" +:+ version +:+ ".tgz" in
  '(resp, err) ← httpGet E chartURL;
  failed ← errOrStatusNot 200 resp err;
  if failed : bool then
    println (FailedToFetch chart version server1 err);; mret loc
  else
    h ← deref resp;
    let '(data, err) := readAll h in
    closeBody resp;;
    if notNil err then
      println (FailedToRead chart version err);; mret loc
    else
      let postURL := server2 +:+ "/api/charts" in
      let '(req, err) := newRequest E postURL data in
      if notNil err then
        println (FailedToCreateRequest chart version err);; mret loc
      else
        match req with
        | None => panic "invalid memory address or nil pointer dereference"
        | Some req =>
            let req := setContentType "application/gzip" req in
            '(resp, err) ← roundTrip E req;
            failed ← errOrStatusNot 201 resp err;
            loc' ← (if failed : bool then
                      println (FailedToSync chart version server2 err);;
                      mret loc
                    else
                      mret (mkLocals (chartsSynced loc + 1)
                              (Add 1 (Describe (chart +:+ "-" +:+ version)
                                        (bar loc)))));
            closeBody resp;;
            mret loc'
        end.

(** Lines 63-66. *)
Definition countTransfers (entries : list (string * list string)) : Z :=
  fold_left (λ totalCharts entry, totalCharts + Z.of_nat (length entry.2)) entries 0.

(** Lines 71-106: the two nested loops. *)
Definition transferAll (E : env) (server1 server2 : string)
    (entries : list (string * list string)) (loc : locals) : M locals :=
  forEach (λ entry, forEach (transfer E server1 server2 entry.1) entry.2)
    entries loc.

(** [func syncCharts(server1, server2 string)], lines 53-107.  The result
    is [None] when the function returns at line 58, and the final locals
    otherwise. *)
Definition syncCharts (E : env) (server1 server2 : string) : M (option locals) :=
  '(data1, err1) ← fetchCharts E server1;
  '(data2, err2) ← fetchCharts E server2;
  if notNil err1 || notNil err2 then
    println (ErrorFetchingCharts err1 err2);; mret None
  else
    let diff := compareCharts data1 data2 in
    let totalCharts := countTransfers (rangeOrder E diff) in
    let bar := Default totalCharts "Syncing Charts" in
    loc ← transferAll E server1 server2 (rangeOrder E diff) (mkLocals 0 bar);
    mret (Some loc).

(** [func checkInfoEndpoint(u string) error], lines 109-130. *)
Definition checkInfoEndpoint (E : env) (u : string) : M (option error) :=
  '(resp, err) ← httpGet E u;
  match err with
  | Some e => mret (Some (MakingRequest e))
  | None =>
      h ← deref resp;
      if bool_decide (StatusCode (response h) ≠ 200) then
        closeBody resp;; mret (Some (UnexpectedStatusCode (StatusCode (response h))))
      else
        match decodeAny (Body (response h)) with
        | inr e => closeBody resp;; mret (Some (DecodingJSON e))
        | inl data =>
            match data !! "version" with
            | None => closeBody resp;; mret (Some MissingVersionKey)
            | Some _ => closeBody resp;; mret None
            end
        end
  end.

(** [func main()], lines 132-160, from the parsed flags on; the result is
    the exit status of the process. *)
Definition main (E : env) (source destination : string) : M Z :=
  if bool_decide (source = "http://localhost:8080")
     && bool_decide (destination = "http://localhost:8080") then
    println (Text "You must have at least one source or one destination.");;
    println (Text "cm_sync -s http://source_url -d http://destination_url");;
    println (Text "if you omit either of them, http://localhost:8080 will be used instead");;
    println (Text "cm_sync -s http://source_url (*implies -d http://localhost:8080)");;
    println (Text "---");;
    println (Text "chartmuseum --storage local --storage-local-rootdir /tmp/chartmuseum/ --port 8080");;
    println FlagUsage;;
    mret 1
  else
    err ← checkInfoEndpoint E (source +:+ "/info");
    match err with
    | Some e => println (ErrorChecking "source" (source +:+ "/info") e);; mret 1
    | None =>
        err ← checkInfoEndpoint E (destination +:+ "/info");
        match err with
        | Some e =>
            println (ErrorChecking "destination" (destination +:+ "/info") e);;
            mret 1
        | None => syncCharts E source destination;; mret 0
        end
    end.

End Sync.

(** ** Statements of the specification that the code is compared with *)

Module Claims.
Import Sync.

(** The version strings the diff holds for a chart; none when the chart is
    not a key of the diff. *)
Definition diffVersions (A B : ChartData) (c : string) : list string :=
  default [] (compareCharts A B !! c).

(** How often a version string occurs in a sequence. *)
Definition occurrences (v : string) (vs : list string) : nat :=
  length (filter (λ x, x = v) vs).

(** "diff(A, {}) equals A": every chart of [A] is in the diff, with the
    version strings of all its records. *)
Definition diffAgainstEmptyIsSource (A : ChartData) : Prop :=
  ∀ c versions1,
    A !! c = Some versions1 →
    compareCharts A ∅ !! c = Some (Version <$> versions1).

(** The requests sent before and with [req]. *)
Definition history (w : world) (req : request) : list request :=
  (exchanges w).*1 ++ [req].

(** What the probe of [u] returns from the world [w]. *)
Definition probe (E : env) (u : string) (w : world) : outcome (option error) :=
  (checkInfoEndpoint E u w).1.








(** "The number of diffed versions, summed over all charts". *)
Definition totalVersions (diff : DiffResult) : Z :=
  Z.of_nat (sum_list_with (λ entry, length entry.2) (map_to_list diff)).

(** An archive fetch succeeded: a response of status 200 whose body can be
    read to its end.  An upload succeeded: a response of status 201. *)
Definition fetched (x : request * reply) : bool :=
  match x with
  | (GET _, Answered r) =>
      bool_decide (StatusCode r = 200) && bool_decide (BodyErr r = None)
  | _ => false
  end.

Definition uploaded (x : request * reply) : bool :=
  match x with
  | (POST _ _ _, Answered r) => bool_decide (StatusCode r = 201)
  | _ => false
  end.

(** The number of items in a log of exchanges for which the fetch and the
    upload that follows it both succeeded. *)
Fixpoint transfersDone (log : list (request * reply)) : Z :=
  match log with
  | [] => 0
  | x :: rest =>
      match rest with
      | y :: _ => if fetched x && uploaded y then 1 else 0
      | [] => 0
      end + transfersDone rest
  end.

(** A log of whole items does not begin with an upload. *)
Definition beginsWithFetch (log : list (request * reply)) : Prop :=
  match log with
  | (POST _ _ _, _) :: _ => False
  | _ => True
  end.

(** A loop, or a loop body, [f] that adds whole items to the log, at most
    [n] of them transferred, and advances the two counters by the number
    of items it transferred. *)
Definition advances (n : nat) (f : locals → M locals) : Prop :=
  ∀ loc w, ∃ seg,
    exchanges (f loc w).2 = exchanges w ++ seg ∧
    beginsWithFetch seg ∧
    0 ≤ transfersDone seg ≤ Z.of_nat n ∧
    ∀ loc',
      (f loc w).1 = Done loc' →
      barMax (bar loc') = barMax (bar loc) ∧
      barNum (bar loc') = barNum (bar loc) + transfersDone seg ∧
      chartsSynced loc' = chartsSynced loc + transfersDone seg.

(** The chart index a ChartMuseum serves at [/api/charts]. *)
Definition indexBody (index : list (string * list string)) : payload :=
  WellFormed
    (JObject
       ((λ entry,
           (entry.1,
            JArray ((λ v, JObject [("version", JString v)]) <$> entry.2)))
          <$> index)).

(** Servers that answer a GET by the table [routes] and every POST by
    [upload]; all URLs parse, and [range] visits a map in the order of
    [map_to_list]. *)
Definition servers (routes : list (string * reply)) (upload : reply) : env :=
  mkEnv
    (λ sent,
       match last sent with
       | Some (GET url) =>
           default (Failed "no route to host")
             ((list_to_map routes : gmap string reply) !! url)
       | Some (POST _ _ _) => upload
       | None => Failed "no request"
       end)
    (λ _, None) map_to_list (λ _, Permutation_refl _).

(** The scenario of the specification: the source has [app] in versions
    1.0.0 and 1.1.0, the destination has 1.0.0; the archive is served and
    the upload is answered 201. *)
Definition scenario : env :=
  servers
    [("http://source:8080/api/charts",
      Answered (mkResponse 200 (indexBody [("app", ["1.0.0"; "1.1.0"])]) None));
     ("http://dest:8080/api/charts",
      Answered (mkResponse 200 (indexBody [("app", ["1.0.0"])]) None));
     ("http://source:8080/charts/app-1.1.0.tgz",
      Answered (mkResponse 200 (Malformed "app-1.1.0.tgz") None))]
    (Answered (mkResponse 201 (WellFormed (JObject [("saved", JBool true)])) None)).

(** The scenario with a destination that goes away before the upload. *)
Definition uploadRefused : env :=
  servers
    [("http://source:8080/api/charts",
      Answered (mkResponse 200 (indexBody [("app", ["1.0.0"; "1.1.0"])]) None));
     ("http://dest:8080/api/charts",
      Answered (mkResponse 200 (indexBody [("app", ["1.0.0"])]) None));
     ("http://source:8080/charts/app-1.1.0.tgz",
      Answered (mkResponse 200 (Malformed "app-1.1.0.tgz") None))]
    (Failed "dial tcp: connection refused").

(** A destination that answers the listing with status 500 and the body
    [{}]. *)
Definition listingFails : env :=
  servers
    [("http://source:8080/api/charts",
      Answered (mkResponse 200 (indexBody [("app", ["1.0.0"])]) None));
     ("http://dest:8080/api/charts",
      Answered (mkResponse 500 (WellFormed (JObject [])) None));
     ("http://source:8080/charts/app-1.0.0.tgz",
      Answered (mkResponse 200 (Malformed "app-1.0.0.tgz") None))]
    (Answered (mkResponse 201 (WellFormed (JObject [("saved", JBool true)])) None)).

(** A source that lists two versions of [app] and serves the archive of
    one only; the destination is empty. *)
Definition archiveMissing : env :=
  servers
    [("http://source:8080/api/charts",
      Answered (mkResponse 200 (indexBody [("app", ["1.0.0"; "1.1.0"])]) None));
     ("http://dest:8080/api/charts",
      Answered (mkResponse 200 (WellFormed (JObject [])) None));
     ("http://source:8080/charts/app-1.0.0.tgz",
      Answered (mkResponse 404 (Malformed "404 page not found") None));
     ("http://source:8080/charts/app-1.1.0.tgz",
      Answered (mkResponse 200 (Malformed "app-1.1.0.tgz") None))]
    (Answered (mkResponse 201 (WellFormed (JObject [("saved", JBool true)])) None)).

(** An environment whose servers give the same answer to every request. *)
Definition constantEnv (answer : reply) : env :=
  mkEnv (λ _, answer) (λ _, None) map_to_list (λ _, Permutation_refl _).



End Claims.

(** ** Vocabulary of the further properties *)

Module Coverage.
Import Sync Claims.

(** Line 73, the address of an archive. *)
Definition archiveURL (server1 chart version : string) : string :=
  server1 +:+ "/charts/" +:+ chart +:+ "-" +:+ version +:+ ".tgz".

(** The (chart, version) pairs of a diff, in the order in which the two
    nested loops of lines 71-72 visit them. *)
Definition pairs (entries : list (string * list string))
    : list (string * string) :=
  entries ≫= λ entry, (λ version, (entry.1, version)) <$> entry.2.

(** The addresses of the GET requests of a log, in order. *)
Definition fetchURLs (log : list (request * reply)) : list string :=
  omap (λ x, match x.1 with
             | GET url => Some url
             | POST _ _ _ => None
             end) log.

(** Every upload of the log goes to [postURL] as [application/gzip],
    directly after the fetch of an archive from [server1] that was
    answered with status 200 and a readable body, and carries that body. *)
Definition uploadsFollowFetches (server1 postURL : string)
    (log : list (request * reply)) : Prop :=
  ∀ i url contentType data answer,
    log !! i = Some (POST url contentType data, answer) →
    url = postURL ∧ contentType = "application/gzip" ∧
    ∃ j chart version r,
      i = S j ∧
      log !! j = Some (GET (archiveURL server1 chart version), Answered r) ∧
      StatusCode r = 200 ∧ BodyErr r = None ∧ data = Body r.

(** [w'] continues [w]: the log of [w'] extends the log of [w]. *)
Definition extends (w w' : world) : Prop :=
  ∃ log, exchanges w' = exchanges w ++ log.

(** The bodies open in [w'] were open in [w], or belong to a GET that was
    sent since and answered with another status than 200. *)
Definition leaksOnlyRefusedFetches (w w' : world) : Prop :=
  ∀ id,
    id ∈ openBodies w' →
    id ∈ openBodies w ∨
    ((length (exchanges w) ≤ id)%nat ∧
     ∃ url r,
       exchanges w' !! id = Some (GET url, Answered r) ∧ StatusCode r ≠ 200).

(** What holds of every step of a run of [syncCharts]: the log grows, the
    uploads follow their fetches, and nothing but refused fetches leaks. *)
Definition orderly (server1 postURL : string) (w w' : world) : Prop :=
  ∃ log,
    exchanges w' = exchanges w ++ log ∧
    uploadsFollowFetches server1 postURL log ∧
    leaksOnlyRefusedFetches w w'.

(** A call keeps a relation between the world it starts from and the
    world it leaves, whether it returns or panics. *)
Definition keeps {A} (R : relation world) (m : M A) : Prop :=
  ∀ w, R w (m w).2.

(** Between two states of the transfer loop, every item of [items] was
    either counted as synced or reported on a line of output. *)
Definition accounted (items : list (string * string))
    (p q : locals * world) : Prop :=
  chartsSynced q.1 + Z.of_nat (length (stdout q.2))
  = chartsSynced p.1 + Z.of_nat (length (stdout p.2))
    + Z.of_nat (length items).

(** Between two states of the transfer loop, the archives of [items] were
    requested from [server1], one GET each, in order. *)
Definition attempted (server1 : string) (items : list (string * string))
    (p q : locals * world) : Prop :=
  ∃ log,
    exchanges q.2 = exchanges p.2 ++ log ∧
    fetchURLs log = (λ item, archiveURL server1 item.1 item.2) <$> items.

(** A call panics only directly after an upload that failed without a
    response. *)
Definition panicsOnlyAfterFailedUpload {A} (m : M A) : Prop :=
  ∀ w msg w',
    m w = (Panic msg, w') →
    ∃ url contentType data cause,
      last (exchanges w') = Some (POST url contentType data, Failed cause).

(** Sample indices: a source with two charts, and destinations that hold
    the same versions of [app] written in different ways. *)
Definition appEntry : string * list ChartVersion :=
  ("app", [mkChartVersion "1.0.0"; mkChartVersion "1.1.0"]).

Definition dbEntry : string * list ChartVersion :=
  ("db", [mkChartVersion "2.0.0"]).

Definition sourceIndex : ChartData := list_to_map [appEntry; dbEntry].

Definition destRepeated : ChartData :=
  {[ "app" := [mkChartVersion "1.0.0"; mkChartVersion "1.0.0"] ]}.

Definition destPlain : ChartData :=
  <[ "db" := [] ]> {[ "app" := [mkChartVersion "1.0.0"] ]}.

Definition destAfter : ChartData :=
  <[ "db" := [mkChartVersion "2.0.0"] ]>
    {[ "app" := [mkChartVersion "1.1.0"; mkChartVersion "1.0.0"] ]}.

(** Servers that are down, and a server that holds one chart. *)
Definition nobodyHome : env := constantEnv (Failed "no route to host").

Definition oneChart : env :=
  constantEnv (Answered (mkResponse 200 (indexBody [("app", ["1.0.0"])]) None)).

End Coverage.

(** * Properties *)

(** Unfolding the monad of the world. *)
Ltac run :=
  unfold mbind, Http.M_bind, mret, Http.M_ret, Http.panic, Http.println,
    Http.release; simpl.

(** ** The diff *)

Section diff_facts.
Import Diff.
Implicit Types (data : ChartData) (diff : DiffResult).
Implicit Types (c chart v : string) (set : gset string).

Lemma versionSet_from (versions2 : list ChartVersion) set v :
  v ∈ fold_left (λ set r, {[ Version r ]} ∪ set) versions2 set
  ↔ v ∈ set ∨ v ∈ Version <$> versions2.
Proof.
  revert set. induction versions2 as [|r rs IH]; intros set; simpl.
  - rewrite elem_of_nil. tauto.
  - rewrite IH, elem_of_cons, elem_of_union, elem_of_singleton.
    tauto.
Qed.

Lemma elem_of_versionSet (versions2 : list ChartVersion) v :
  v ∈ versionSet versions2 ↔ v ∈ Version <$> versions2.
Proof.
  unfold versionSet. rewrite versionSet_from, elem_of_empty. tauto.
Qed.

(** The set built for a chart holds the destination's version strings. *)
Lemma versionSet2_spec (data2 : ChartData) chart v :
  v ∈ match data2 !! chart with
      | Some versions2 => versionSet versions2
      | None => ∅
      end
  ↔ v ∈ versionsOf data2 chart.
Proof.
  unfold versionsOf. destruct (data2 !! chart) as [versions2|]; simpl.
  - apply elem_of_versionSet.
  - set_solver.
Qed.

Lemma collectMissing_other chart set (versions1 : list ChartVersion) diff c :
  c ≠ chart → collectMissing chart set versions1 diff !! c = diff !! c.
Proof.
  intros Hne. unfold collectMissing. revert diff.
  induction versions1 as [|r rs IH]; intros diff; simpl; [done|].
  rewrite IH. case_decide; [done|].
  unfold appendTo. by rewrite lookup_insert_ne.
Qed.

Lemma collectMissing_same chart set (versions1 : list ChartVersion) diff :
  collectMissing chart set versions1 diff !! chart =
    match filter (λ v, v ∉ set) (Version <$> versions1) with
    | [] => diff !! chart
    | m => Some (default [] (diff !! chart) ++ m)
    end.
Proof.
  unfold collectMissing. revert diff.
  induction versions1 as [|r rs IH]; intros diff; simpl; [done|].
  rewrite IH, filter_cons. case_decide as Hin.
  - rewrite decide_False by tauto. done.
  - rewrite decide_True by done. unfold appendTo.
    rewrite lookup_insert_eq. simpl.
    destruct (filter _ _) as [|m ms]; [done|].
    by rewrite <- app_assoc.
Qed.

Lemma filter_missing_ext set (vs1 vs2 : list string) :
  (∀ v, v ∈ set ↔ v ∈ vs2) →
  filter (λ v, v ∉ set) vs1 = missing vs1 vs2.
Proof.
  intros Hset. unfold missing. apply list_filter_iff. intros v.
  by rewrite Hset.
Qed.

(** What one pass of the outer loop leaves under each key. *)
Lemma visitChart_lookup (data2 : ChartData) diff chart (versions1 : list ChartVersion) c :
  diff !! chart = None →
  visitChart data2 diff (chart, versions1) !! c =
    if decide (c = chart)
    then entryOf (missing (Version <$> versions1) (versionsOf data2 chart))
    else diff !! c.
Proof.
  intros Hfresh. unfold visitChart. case_decide as Hc.
  - subst c. rewrite collectMissing_same, Hfresh. simpl.
    rewrite (filter_missing_ext _ _ (versionsOf data2 chart))
      by apply versionSet2_spec.
    by destruct (missing _ _).
  - by apply collectMissing_other.
Qed.

Lemma compareChartsAlong_from (entries : list (string * list ChartVersion))
    (data2 : ChartData) diff c :
  NoDup entries.*1 →
  (∀ k, k ∈ entries.*1 → diff !! k = None) →
  fold_left (visitChart data2) entries diff !! c =
    match (list_to_map entries : ChartData) !! c with
    | Some versions1 =>
        entryOf (missing (Version <$> versions1) (versionsOf data2 c))
    | None => diff !! c
    end.
Proof.
  revert diff. induction entries as [|[chart versions1] rest IH];
    intros diff Hnd Hfresh; cbn [fold_left list_to_map foldr uncurry].
  - by rewrite lookup_empty.
  - rewrite fmap_cons, NoDup_cons in Hnd. destruct Hnd as [Hnotin Hnd].
    simpl in Hnotin.
    rewrite IH; [|done|].
    + rewrite visitChart_lookup by (apply Hfresh; set_solver).
      rewrite lookup_insert. case_decide as Hc.
      * subst c. rewrite decide_True by done.
        apply not_elem_of_list_to_map_1 in Hnotin.
        by rewrite Hnotin.
      * by rewrite decide_False by done.
    + intros k Hk. rewrite visitChart_lookup by (apply Hfresh; set_solver).
      rewrite decide_False by (intros ->; done).
      apply Hfresh. set_solver.
Qed.

(** The diff, key by key, for every enumeration Go may choose. *)
Lemma compareChartsAlong_lookup (entries : list (string * list ChartVersion))
    (data1 data2 : ChartData) c :
  entries ≡ₚ map_to_list data1 →
  compareChartsAlong entries data2 !! c =
    data1 !! c ≫= λ versions1,
      entryOf (missing (Version <$> versions1) (versionsOf data2 c)).
Proof.
  intros Hperm. unfold compareChartsAlong.
  assert (NoDup entries.*1) as Hnd.
  { rewrite Hperm. apply NoDup_fst_map_to_list. }
  rewrite compareChartsAlong_from; [|done|by intros].
  rewrite (list_to_map_proper _ _ Hnd Hperm), list_to_map_to_list.
  rewrite lookup_empty. by destruct (data1 !! c).
Qed.

Lemma compareCharts_lookup (data1 data2 : ChartData) c :
  compareCharts data1 data2 !! c =
    data1 !! c ≫= λ versions1,
      entryOf (missing (Version <$> versions1) (versionsOf data2 c)).
Proof. by apply compareChartsAlong_lookup. Qed.

(** The order in which [range] visits [data1] does not show in the diff. *)
Lemma compareCharts_any_order (entries : list (string * list ChartVersion))
    (data1 data2 : ChartData) :
  entries ≡ₚ map_to_list data1 →
  compareChartsAlong entries data2 = compareCharts data1 data2.
Proof.
  intros Hperm. apply map_eq. intros c.
  by rewrite compareCharts_lookup, (compareChartsAlong_lookup _ data1).
Qed.

Lemma entryOf_Some (vs ws : list string) :
  entryOf vs = Some ws ↔ vs = ws ∧ ws ≠ [].
Proof. destruct vs; simpl; naive_solver. Qed.

Lemma elem_of_missing (vs1 vs2 : list string) v :
  v ∈ missing vs1 vs2 ↔ v ∈ vs1 ∧ v ∉ vs2.
Proof. unfold missing. rewrite list_elem_of_filter. tauto. Qed.

End diff_facts.

Section diff_claims.
Import Diff Claims.

(** C1: the diff computed by [compareCharts] contains chart [c] with
    version [v] if and only if [v] appears in [A]'s entry for [c] and either
    does not appear, as an exact string, among the version strings of [B]'s
    entry for [c], or [c] is absent from [B]. *)
Theorem compareCharts_contains_iff (A B : ChartData) (c v : string) :
  contains (compareCharts A B) c v ↔
    (∃ versions1, A !! c = Some versions1 ∧ v ∈ Version <$> versions1) ∧
    ((∃ versions2, B !! c = Some versions2 ∧ v ∉ Version <$> versions2)
     ∨ B !! c = None).
Proof.
  unfold contains. setoid_rewrite compareCharts_lookup.
  unfold versionsOf. split.
  - intros (vs & Hvs & Hv).
    destruct (A !! c) as [versions1|]; simpl in Hvs; [|done].
    apply entryOf_Some in Hvs as [<- _].
    apply elem_of_missing in Hv as [Hin Hout].
    split; [by exists versions1|].
    destruct (B !! c) as [versions2|]; [left|by right].
    by exists versions2.
  - intros [(versions1 & -> & Hin) Hout]. simpl.
    assert (v ∈ missing (Version <$> versions1)
                  (Version <$> default [] (B !! c))) as Hv.
    { apply elem_of_missing. split; [done|].
      destruct Hout as [(versions2 & -> & Hout)| ->]; [done|].
      simpl. apply not_elem_of_nil. }
    exists (missing (Version <$> versions1) (Version <$> default [] (B !! c))).
    split; [|done]. apply entryOf_Some. split; [done|].
    intros Hnil. rewrite Hnil in Hv. by apply not_elem_of_nil in Hv.
Qed.

(** C6 as amended: against the empty index, every chart of [A] that has at
    least one version record is in the diff with the version strings of all
    its records, in order; a chart of [A] without records is not a key of
    the diff, and neither is a chart that [A] does not have. *)
Theorem compareCharts_empty_destination (A : ChartData) (c : string) :
  (∀ versions1, A !! c = Some versions1 → versions1 ≠ [] →
     compareCharts A ∅ !! c = Some (Version <$> versions1)) ∧
  (A !! c = Some [] → compareCharts A ∅ !! c = None) ∧
  (A !! c = None → compareCharts A ∅ !! c = None).
Proof.
  rewrite compareCharts_lookup. unfold versionsOf.
  rewrite lookup_empty. simpl.
  assert (∀ vs : list string, missing vs [] = vs) as Hall.
  { intros vs. unfold missing. induction vs as [|x xs IH]; [done|].
    rewrite filter_cons, decide_True by apply not_elem_of_nil.
    by rewrite IH. }
  split_and!.
  - intros versions1 -> Hne. simpl. rewrite Hall.
    by destruct versions1.
  - by intros ->.
  - by intros ->.
Qed.

(** C6 as stated fails: the index whose only chart has no version record
    has an empty diff against the empty index. *)
Lemma diffAgainstEmptyIsSource_fails :
  ¬ diffAgainstEmptyIsSource {[ "app" := [] ]}.
Proof.
  intros Hclaim. specialize (Hclaim "app" [] (lookup_singleton_eq _ _)).
  pose proof (compareCharts_empty_destination {[ "app" := [] ]} "app")
    as (_ & Hnone & _).
  specialize (Hnone (lookup_singleton_eq _ _)).
  congruence.
Qed.

(** C8: the diff never maps a chart name to the empty list; a chart name
    is a key of the diff exactly when one of its source versions is missing
    from the destination; a source chart without versions, or all of whose
    versions exist at the destination, is not a key of the diff. *)
Theorem compareCharts_no_empty_entry (A B : ChartData) (c : string) :
  compareCharts A B !! c ≠ Some [] ∧
  (is_Some (compareCharts A B !! c) ↔
     ∃ v, v ∈ versionsOf A c ∧ v ∉ versionsOf B c) ∧
  (A !! c = Some [] → compareCharts A B !! c = None) ∧
  ((∀ v, v ∈ versionsOf A c → v ∈ versionsOf B c) →
     compareCharts A B !! c = None).
Proof.
  rewrite compareCharts_lookup.
  assert (∀ vs1 : list string,
            (∀ v, v ∈ vs1 → v ∈ versionsOf B c) →
            missing vs1 (versionsOf B c) = []) as Hnone.
  { intros vs1 Hall. unfold missing. induction vs1 as [|x xs IH]; [done|].
    rewrite filter_cons, decide_False.
    - apply IH. intros v Hv. apply Hall. by right.
    - intros Hx. apply Hx, Hall. by left. }
  split_and!.
  - destruct (A !! c) as [versions1|]; simpl; [|done].
    intros Heq. by apply entryOf_Some in Heq as [_ ?].
  - unfold versionsOf at 2. split.
    + intros [vs Hvs].
      destruct (A !! c) as [versions1|]; simpl in *; [|done].
      apply entryOf_Some in Hvs as [<- Hne].
      destruct (missing _ _) as [|v rest] eqn:Hm; [done|].
      exists v. apply elem_of_missing. rewrite Hm. by left.
    + intros (v & Hin & Hout).
      destruct (A !! c) as [versions1|]; simpl in *;
        [|by apply not_elem_of_nil in Hin].
      assert (v ∈ missing (Version <$> versions1) (versionsOf B c)) as Hv
        by by apply elem_of_missing.
      destruct (missing _ _); [by apply not_elem_of_nil in Hv|].
      by eexists.
  - by intros ->.
  - intros Hall. unfold versionsOf in Hall at 1.
    destruct (A !! c) as [versions1|]; simpl in *; [|done].
    by rewrite Hnone.
Qed.

Lemma occurrences_missing (vs1 vs2 : list string) (v : string) :
  occurrences v (missing vs1 vs2) =
    if decide (v ∈ vs2) then 0%nat else occurrences v vs1.
Proof.
  unfold occurrences, missing.
  induction vs1 as [|x xs IH]; [by case_decide|].
  rewrite (filter_cons (λ v, v ∉ vs2)), (filter_cons (λ x, x = v) x xs).
  destruct (decide (x = v)) as [->|Hne].
  - destruct (decide (v ∈ vs2)) as [Hin|Hout].
    + rewrite decide_False by tauto. exact IH.
    + rewrite decide_True by done.
      rewrite filter_cons, decide_True by done. simpl. by rewrite IH.
  - destruct (decide (x ∉ vs2)) as [Hx|Hx]; [|exact IH].
    rewrite filter_cons, decide_False by done. exact IH.
Qed.

(** C9: for every chart, the version strings of the diff are those of the
    source entry that are missing at the destination, in the order of the
    source entry and with their multiplicity: a string that the
    destination lacks occurs in the diff as often as in the source entry. *)
Theorem compareCharts_order_multiplicity (A B : ChartData) (c : string) :
  diffVersions A B c = missing (versionsOf A c) (versionsOf B c) ∧
  sublist (diffVersions A B c) (versionsOf A c) ∧
  (∀ v, occurrences v (diffVersions A B c) =
          if decide (v ∈ versionsOf B c) then 0%nat
          else occurrences v (versionsOf A c)).
Proof.
  assert (diffVersions A B c = missing (versionsOf A c) (versionsOf B c))
    as Heq.
  { unfold diffVersions. rewrite compareCharts_lookup.
    unfold versionsOf.
    destruct (A !! c) as [versions1|]; simpl; [|done].
    by destruct (missing _ _). }
  rewrite Heq. split; [done|split].
  - apply sublist_filter.
  - intros v. apply occurrences_missing.
Qed.

End diff_claims.

(** ** The probe *)

Section probe_claims.
Import Sync Claims.













End probe_claims.

(** ** The transfer loop *)

Section transfer_facts.
Import Sync Claims.

Lemma transfersDone_app (log1 log2 : list (request * reply)) :
  beginsWithFetch log2 →
  transfersDone (log1 ++ log2) = transfersDone log1 + transfersDone log2.
Proof.
  intros Hfetch. induction log1 as [|x [|y rest] IH]; simpl in *.
  - lia.
  - destruct log2 as [|[[url|url ct data] answer] rest2]; simpl in *;
      [lia| |done].
    rewrite andb_false_r. lia.
  - rewrite IH. lia.
Qed.

Lemma countTransfers_from (entries : list (string * list string)) (n : Z) :
  fold_left (λ totalCharts entry, totalCharts + Z.of_nat (length entry.2))
    entries n
  = n + Z.of_nat (sum_list_with (λ entry, length entry.2) entries).
Proof.
  revert n. induction entries as [|entry rest IH]; intros n; simpl.
  - lia.
  - rewrite IH. lia.
Qed.

(** The total computed at lines 63-66 does not depend on the order in
    which [range] visits the diff. *)
Lemma countTransfers_total E (diff : DiffResult) :
  countTransfers (rangeOrder E diff) = totalVersions diff.
Proof.
  unfold countTransfers, totalVersions. rewrite countTransfers_from.
  by rewrite (rangeOrder_perm E diff).
Qed.

(** One pass of the inner loop: the exchanges it adds, and what it does to
    the counters when it returns. *)
Lemma transfer_advances E (server1 server2 chart version : string) :
  advances 1 (transfer E server1 server2 chart version).
Proof.
  intros loc w.
  unfold transfer, httpGet, roundTrip, errOrStatusNot, closeBody, deref,
    readAll, newRequest.
  run.
  repeat (case_match; simpl in *; simplify_eq).
  all: rewrite <- ?app_assoc; simpl.
  all: first [ exists []; split; [by rewrite app_nil_r|]
             | eexists; split; [reflexivity|] ].
  all: simpl; split; [done|].
  all: repeat case_bool_decide; simplify_eq/=.
  all: try (destruct (BodyErr _); done).
  all: split; [lia|]; intros loc' ?; simplify_eq/=; split_and!; lia.
Qed.

Lemma beginsWithFetch_app (log1 log2 : list (request * reply)) :
  beginsWithFetch log1 → beginsWithFetch log2 → beginsWithFetch (log1 ++ log2).
Proof. by destruct log1. Qed.

(** A loop advances by what its passes advance. *)
Lemma forEach_advances {A} (size : A → nat) (body : A → locals → M locals)
    (items : list A) :
  (∀ x, x ∈ items → advances (size x) (body x)) →
  advances (sum_list_with size items) (forEach body items).
Proof.
  induction items as [|x rest IH]; intros Hbody loc w; simpl.
  - exists []. rewrite app_nil_r. run. split_and!; try done.
    intros loc' ?. simplify_eq. lia.
  - destruct (Hbody x (list_elem_of_here _ _) loc w)
      as (seg & Hlog & Hfetch & Hdone & Hloc).
    unfold mbind, M_bind.
    destruct (body x loc w) as [[loc1|msg] w1]; simpl in *.
    + destruct (IH (λ y Hy, Hbody y (list_elem_of_further _ _ _ Hy)) loc1 w1)
        as (log & Hlog' & Hfetch' & Hdone' & Hloc').
      exists (seg ++ log). rewrite Hlog', Hlog, app_assoc.
      rewrite transfersDone_app by done.
      split_and!; [done|by apply beginsWithFetch_app|lia..|].
      intros loc' Hret.
      destruct (Hloc loc1 eq_refl) as (? & ? & ?).
      destruct (Hloc' loc' Hret) as (? & ? & ?).
      split_and!; lia.
    + exists seg. split_and!; [done..|lia|lia|done].
Qed.

Lemma sum_list_with_one {A} (l : list A) :
  sum_list_with (λ _, 1%nat) l = length l.
Proof. induction l; simpl; lia. Qed.

(** Lines 71-106: the transfer loop advances both counters by the number
    of items it transferred, which is at most the number of its items. *)
Lemma transferAll_advances E (server1 server2 : string)
    (entries : list (string * list string)) :
  advances (sum_list_with (λ entry, length entry.2) entries)
    (transferAll E server1 server2 entries).
Proof.
  unfold transferAll. apply forEach_advances. intros entry _.
  rewrite <- sum_list_with_one. apply forEach_advances. intros version _.
  apply transfer_advances.
Qed.

(** C5: the total computed before the transfer loop, with which the
    progress tracker is set up, is the sum over all charts of the number of
    diffed versions; when [syncCharts] returns after the loop, the position
    of the tracker and the synced count are both the number of diffed items
    for which the archive fetch and the upload succeeded. *)
Theorem syncCharts_progress E (server1 server2 : string) w loc w' :
  syncCharts E server1 server2 w = (Done (Some loc), w') →
  ∃ data1 w1 data2 w2 log,
    fetchCharts E server1 w = (Done (data1, None), w1) ∧
    fetchCharts E server2 w1 = (Done (data2, None), w2) ∧
    countTransfers (rangeOrder E (compareCharts data1 data2))
      = totalVersions (compareCharts data1 data2) ∧
    barMax (bar loc) = totalVersions (compareCharts data1 data2) ∧
    exchanges w' = exchanges w2 ++ log ∧
    barNum (bar loc) = transfersDone log ∧
    chartsSynced loc = transfersDone log ∧
    0 ≤ barNum (bar loc) ≤ barMax (bar loc).
Proof.
  unfold syncCharts, mbind, M_bind. intros Hrun.
  destruct (fetchCharts E server1 w) as [[[data1 err1]|msg] w1] eqn:Hfetch1;
    [|done].
  destruct (fetchCharts E server2 w1) as [[[data2 err2]|msg] w2] eqn:Hfetch2;
    [|done].
  destruct err1 as [e|]; [done|]. destruct err2 as [e|]; [done|].
  simpl in Hrun.
  set (diff := compareCharts data1 data2) in *.
  destruct (transferAll_advances E server1 server2 (rangeOrder E diff)
              (mkLocals 0 (Default (countTransfers (rangeOrder E diff))
                             "Syncing Charts")) w2)
    as (log & Hlog & _ & Hdone & Hloc).
  destruct (transferAll _ _ _ _ _ _) as [[loc1|msg] w3]; [|done].
  unfold mret, M_ret in Hrun. simplify_eq/=.
  destruct (Hloc loc eq_refl) as (Hmax & Hnum & Hsynced).
  rewrite countTransfers_total in Hmax.
  exists data1, w1, data2, w2, log.
  split_and!; try done.
  - apply countTransfers_total.
  - lia.
  - rewrite Hmax. unfold totalVersions.
    rewrite <- (rangeOrder_perm E diff). lia.
Qed.

(** The scenario of the specification: one item, fetched and uploaded. *)
Lemma syncCharts_progress_witness :
  ∃ data1 w1 data2 w2 log,
    fetchCharts scenario "http://source:8080" start = (Done (data1, None), w1) ∧
    fetchCharts scenario "http://dest:8080" w1 = (Done (data2, None), w2) ∧
    countTransfers (rangeOrder scenario (compareCharts data1 data2))
      = totalVersions (compareCharts data1 data2) ∧
    1 = totalVersions (compareCharts data1 data2) ∧
    exchanges (syncCharts scenario "http://source:8080" "http://dest:8080"
                 start).2
      = exchanges w2 ++ log ∧
    1 = transfersDone log ∧
    1 = transfersDone log ∧
    0 ≤ 1 ≤ 1.
Proof.
  apply (syncCharts_progress scenario "http://source:8080" "http://dest:8080"
           start (mkLocals 1 (mkBar 1 1 "app-1.1.0"))).
  vm_compute. reflexivity.
Defined.

End transfer_facts.

(** ** Failures during a run *)

Section failure_facts.
Import Sync Claims.

(** The listing does not read the status code: whatever the status, the
    result is what the body decodes to, and the body is closed. *)
Lemma fetchCharts_answered E (url : string) w r :
  urlError E (url +:+ "/api/charts") = None →
  net E (history w (GET (url +:+ "/api/charts"))) = Answered r →
  fetchCharts E url w =
    (Done match decodeCharts (Body r) with
          | inl data => (data, None)
          | inr e => (∅, Some e)
          end,
     mkWorld (exchanges w ++ [(GET (url +:+ "/api/charts"), Answered r)])
       (({[ length (exchanges w) ]} ∪ openBodies w) ∖ {[ length (exchanges w) ]})
       (stdout w)).
Proof.
  intros Hurl Hnet. unfold history in Hnet.
  unfold fetchCharts, httpGet. rewrite Hurl.
  unfold roundTrip. run. rewrite Hnet. simpl.
  by destruct (decodeCharts (Body r)).
Qed.

(** When a listing returns an error, [syncCharts] prints both errors and
    returns; nothing is sent after the two listings. *)
Lemma syncCharts_aborts_on_listing_error E (server1 server2 : string)
    w data1 err1 w1 data2 err2 w2 :
  fetchCharts E server1 w = (Done (data1, err1), w1) →
  fetchCharts E server2 w1 = (Done (data2, err2), w2) →
  err1 ≠ None ∨ err2 ≠ None →
  syncCharts E server1 server2 w =
    (Done None,
     mkWorld (exchanges w2) (openBodies w2)
       (stdout w2 ++ [ErrorFetchingCharts err1 err2])).
Proof.
  intros Hfetch1 Hfetch2 Herr. unfold syncCharts, mbind, M_bind.
  rewrite Hfetch1, Hfetch2.
  destruct err1, err2; simpl; try done. by destruct Herr.
Qed.

(** A destination whose listing does not decode stops the sync, whatever
    the status of the response. *)
Lemma syncCharts_aborts_on_undecodable_listing E (server1 server2 : string)
    w data1 err1 w1 r e :
  fetchCharts E server1 w = (Done (data1, err1), w1) →
  urlError E (server2 +:+ "/api/charts") = None →
  net E (history w1 (GET (server2 +:+ "/api/charts"))) = Answered r →
  decodeCharts (Body r) = inr e →
  (syncCharts E server1 server2 w).1 = Done None ∧
  exchanges (syncCharts E server1 server2 w).2
    = exchanges w1 ++ [(GET (server2 +:+ "/api/charts"), Answered r)].
Proof.
  intros Hfetch1 Hurl Hnet Hdecode.
  pose proof (fetchCharts_answered E server2 w1 r Hurl Hnet) as Hfetch2.
  rewrite Hdecode in Hfetch2.
  by rewrite (syncCharts_aborts_on_listing_error _ _ _ _ _ _ _ _ _ _
                Hfetch1 Hfetch2) by by right.
Qed.

(** The three ways in which one pass of the inner loop goes on from an
    answer: an upload answered with another status than 201 is printed
    and the pass returns with the counters as they were; an upload that
    fails without a response makes the pass panic; a fetch answered with
    another status than 200 leaves the body of the answer open. *)
Lemma transfer_upload_status E (server1 server2 chart version : string)
    loc w r r' :
  let chartURL :=
    server1 +:+ "/charts/" +:+ chart +:+ "-" +:+ version +:+ ".tgz" in
  let postURL := server2 +:+ "/api/charts" in
  urlError E chartURL = None →
  urlError E postURL = None →
  net E (history w (GET chartURL)) = Answered r →
  StatusCode r = 200 →
  BodyErr r = None →
  net E (history w (GET chartURL)
           ++ [POST postURL "application/gzip" (Body r)]) = Answered r' →
  StatusCode r' ≠ 201 →
  (transfer E server1 server2 chart version loc w).1 = Done loc ∧
  stdout (transfer E server1 server2 chart version loc w).2
    = stdout w ++ [FailedToSync chart version server2 None].
Proof.
  intros chartURL postURL Hurl Hurl' Hnet Hstatus Hread Hnet' Hstatus'.
  unfold history in *. unfold transfer, httpGet. fold chartURL postURL.
  rewrite Hurl. unfold roundTrip, errOrStatusNot, newRequest. run.
  rewrite Hnet. simpl. rewrite bool_decide_eq_false_2 by (by intros ?).
  unfold readAll. simpl. rewrite Hread. simpl.
  rewrite Hurl'. simpl. rewrite fmap_app. simpl. rewrite Hnet'. simpl.
  by rewrite bool_decide_eq_true_2 by done.
Qed.

Lemma transfer_upload_error_panics E (server1 server2 chart version : string)
    loc w r msg :
  let chartURL :=
    server1 +:+ "/charts/" +:+ chart +:+ "-" +:+ version +:+ ".tgz" in
  let postURL := server2 +:+ "/api/charts" in
  urlError E chartURL = None →
  urlError E postURL = None →
  net E (history w (GET chartURL)) = Answered r →
  StatusCode r = 200 →
  BodyErr r = None →
  net E (history w (GET chartURL)
           ++ [POST postURL "application/gzip" (Body r)]) = Failed msg →
  (transfer E server1 server2 chart version loc w).1
    = Panic "invalid memory address or nil pointer dereference" ∧
  stdout (transfer E server1 server2 chart version loc w).2
    = stdout w ++ [FailedToSync chart version server2 (Some (NetError msg))].
Proof.
  intros chartURL postURL Hurl Hurl' Hnet Hstatus Hread Hnet'.
  unfold history in *. unfold transfer, httpGet. fold chartURL postURL.
  rewrite Hurl. unfold roundTrip, errOrStatusNot, newRequest. run.
  rewrite Hnet. simpl. rewrite bool_decide_eq_false_2 by (by intros ?).
  unfold readAll. simpl. rewrite Hread. simpl.
  rewrite Hurl'. simpl. rewrite fmap_app. simpl. by rewrite Hnet'.
Qed.

Lemma transfer_fetch_status_leaks E (server1 server2 chart version : string)
    loc w r :
  let chartURL :=
    server1 +:+ "/charts/" +:+ chart +:+ "-" +:+ version +:+ ".tgz" in
  urlError E chartURL = None →
  net E (history w (GET chartURL)) = Answered r →
  StatusCode r ≠ 200 →
  (transfer E server1 server2 chart version loc w).1 = Done loc ∧
  length (exchanges w)
    ∈ openBodies (transfer E server1 server2 chart version loc w).2.
Proof.
  intros chartURL Hurl Hnet Hstatus.
  unfold history in *. unfold transfer, httpGet. fold chartURL.
  rewrite Hurl. unfold roundTrip, errOrStatusNot. run.
  rewrite Hnet. simpl. rewrite bool_decide_eq_true_2 by done. simpl.
  split; [done|]. apply elem_of_union_l, elem_of_singleton. done.
Qed.

(** The listing never panics. *)
Lemma fetchCharts_returns E (url : string) w :
  ∃ data err w', fetchCharts E url w = (Done (data, err), w').
Proof.
  unfold fetchCharts, httpGet, roundTrip, closeBody, deref. run.
  repeat (case_match; simpl in *; simplify_eq); eauto.
Qed.

(** A pass of the inner loop returns unless an upload fails without a
    response. *)
Lemma transfer_returns E (server1 server2 chart version : string) loc w :
  (∀ sent url contentType data msg,
     net E (sent ++ [POST url contentType data]) ≠ Failed msg) →
  ∃ loc' w',
    transfer E server1 server2 chart version loc w = (Done loc', w').
Proof.
  intros Hupload.
  unfold transfer, httpGet, roundTrip, errOrStatusNot, closeBody, deref,
    readAll, newRequest.
  run.
  repeat (case_match; simpl in *; simplify_eq); eauto.
  all: by edestruct Hupload.
Qed.

Lemma forEach_returns {A S} (body : A → S → M S) (items : list A) :
  (∀ x s w, ∃ s' w', body x s w = (Done s', w')) →
  ∀ s w, ∃ s' w', forEach body items s w = (Done s', w').
Proof.
  intros Hbody. induction items as [|x rest IH]; intros s w; simpl.
  - by eexists _, _.
  - unfold mbind, M_bind.
    destruct (Hbody x s w) as (s1 & w1 & ->). apply IH.
Qed.

(** [syncCharts] returns unless an upload fails without a response. *)
Lemma syncCharts_returns E (server1 server2 : string) w :
  (∀ sent url contentType data msg,
     net E (sent ++ [POST url contentType data]) ≠ Failed msg) →
  ∃ result w', syncCharts E server1 server2 w = (Done result, w').
Proof.
  intros Hupload. unfold syncCharts, mbind, M_bind.
  destruct (fetchCharts_returns E server1 w) as (data1 & err1 & w1 & ->).
  destruct (fetchCharts_returns E server2 w1) as (data2 & err2 & w2 & ->).
  destruct (notNil err1 || notNil err2); [by eexists _, _|].
  edestruct (forEach_returns
               (λ entry : string * list string,
                  forEach (transfer E server1 server2 entry.1) entry.2))
    as (loc & w3 & Hloop).
  { intros entry. apply forEach_returns. intros version loc' w'.
    by apply transfer_returns. }
  unfold transferAll. rewrite Hloop. by eexists _, _.
Qed.

(** A probe that fails ends [main] with exit status 1 before anything is
    listed or transferred. *)
Lemma main_stops_on_source_probe E (source destination : string) w e w1 :
  ¬ (source = "http://localhost:8080" ∧ destination = "http://localhost:8080") →
  checkInfoEndpoint E (source +:+ "/info") w = (Done (Some e), w1) →
  main E source destination w =
    (Done 1,
     mkWorld (exchanges w1) (openBodies w1)
       (stdout w1 ++ [ErrorChecking "source" (source +:+ "/info") e])).
Proof.
  intros Hflags Hprobe. unfold main.
  assert (bool_decide (source = "http://localhost:8080")
          && bool_decide (destination = "http://localhost:8080") = false)
    as ->.
  { apply andb_false_iff.
    destruct (decide (source = "http://localhost:8080")) as [?|?].
    - right. apply bool_decide_eq_false_2. tauto.
    - left. by apply bool_decide_eq_false_2. }
  unfold mbind, M_bind. by rewrite Hprobe.
Qed.

(** C2, at a failing input: the destination lists its charts and then
    refuses the connection of the upload.  [client.Do] returns a nil
    response with the error; the failure is printed, and
    [resp.Body.Close()] at line 104 then dereferences the nil response:
    the run panics instead of going on. *)
Theorem syncCharts_upload_error_panics :
  (syncCharts uploadRefused "http://source:8080" "http://dest:8080" start).1
    = Panic "invalid memory address or nil pointer dereference" ∧
  stdout (syncCharts uploadRefused "http://source:8080" "http://dest:8080"
            start).2
    = [FailedToSync "app" "1.1.0" "http://dest:8080"
         (Some (NetError "dial tcp: connection refused"))].
Proof. split; vm_compute; reflexivity. Qed.

(** C3, at a failing input: the destination answers the listing with
    status 500 and the body [{}].  [fetchCharts] does not read the status,
    the body decodes to the empty index, and the sync fetches and uploads
    the chart of the source. *)
Theorem syncCharts_ignores_listing_status :
  (syncCharts listingFails "http://source:8080" "http://dest:8080" start).1
    = Done (Some (mkLocals 1 (mkBar 1 1 "app-1.0.0"))) ∧
  (exchanges (syncCharts listingFails "http://source:8080" "http://dest:8080"
                start).2).*1
    = [GET "http://source:8080/api/charts";
       GET "http://dest:8080/api/charts";
       GET "http://source:8080/charts/app-1.0.0.tgz";
       POST "http://dest:8080/api/charts" "application/gzip"
         (Malformed "app-1.0.0.tgz")] ∧
  stdout (syncCharts listingFails "http://source:8080" "http://dest:8080"
            start).2 = [].
Proof. split_and!; vm_compute; reflexivity. Qed.

(** C4, at a failing input: the source answers the fetch of one archive
    with status 404.  The loop takes [continue] at line 77 without closing
    the body of that response (exchange 2 of the run), which is still open
    when [syncCharts] returns; the other item is transferred. *)
Theorem syncCharts_leaves_body_open :
  (syncCharts archiveMissing "http://source:8080" "http://dest:8080" start).1
    = Done (Some (mkLocals 1 (mkBar 2 1 "app-1.1.0"))) ∧
  openBodies (syncCharts archiveMissing "http://source:8080"
                "http://dest:8080" start).2
    = {[ 2%nat ]} ∧
  (exchanges (syncCharts archiveMissing "http://source:8080"
                "http://dest:8080" start).2) !! 2%nat
    = Some (GET "http://source:8080/charts/app-1.0.0.tgz",
            Answered (mkResponse 404 (Malformed "404 page not found") None)).
Proof. split_and!; vm_compute; reflexivity. Qed.

End failure_facts.

(** * Further properties of the code *)

(** ** compareCharts *)

Section diff_more.
Import Diff Claims Coverage.

Lemma missing_nil_iff (vs1 vs2 : list string) :
  missing vs1 vs2 = [] ↔ ∀ v, v ∈ vs1 → v ∈ vs2.
Proof.
  split.
  - intros Hnil v Hin. destruct (decide (v ∈ vs2)) as [|Hout]; [done|].
    assert (v ∈ missing vs1 vs2) as Hv by by apply elem_of_missing.
    rewrite Hnil in Hv. by apply not_elem_of_nil in Hv.
  - intros Hall. destruct (missing vs1 vs2) as [|v rest] eqn:Hm; [done|].
    assert (v ∈ missing vs1 vs2) as Hv by (rewrite Hm; left).
    apply elem_of_missing in Hv as [Hin Hout]. destruct Hout. by apply Hall.
Qed.

Lemma compareCharts_lookup_None (A B : ChartData) (c : string) :
  compareCharts A B !! c = None ↔ ∀ v, v ∈ versionsOf A c → v ∈ versionsOf B c.
Proof.
  rewrite <- missing_nil_iff, compareCharts_lookup. unfold versionsOf.
  destruct (A !! c) as [versions1|]; simpl; [|done].
  unfold entryOf. destruct (missing _ _); split; intros ?; done.
Qed.

Lemma diffVersions_missing (A B : ChartData) (c : string) :
  diffVersions A B c = missing (versionsOf A c) (versionsOf B c).
Proof.
  unfold diffVersions. rewrite compareCharts_lookup. unfold versionsOf.
  destruct (A !! c) as [versions1|]; simpl; [|done].
  by destruct (missing _ _).
Qed.

(** X1: the diff does not depend on the order in which [range] visits the
    source index: two enumerations of its entries give the same map. *)
Theorem compareCharts_range_order
    (entries entries' : list (string * list ChartVersion))
    (data1 data2 : ChartData) :
  entries ≡ₚ map_to_list data1 →
  entries' ≡ₚ map_to_list data1 →
  compareChartsAlong entries data2 = compareChartsAlong entries' data2.
Proof.
  intros Hperm Hperm'. apply map_eq. intros c.
  by rewrite (compareChartsAlong_lookup entries data1),
    (compareChartsAlong_lookup entries' data1).
Qed.

(** Two orders of visiting the sample source. *)
Lemma compareCharts_range_order_witness :
  compareChartsAlong [appEntry; dbEntry] destPlain
  = compareChartsAlong [dbEntry; appEntry] destPlain.
Proof.
  apply (compareCharts_range_order _ _ sourceIndex).
  - vm_compute. first [reflexivity | apply perm_swap].
  - vm_compute. first [reflexivity | apply perm_swap].
Defined.

(** X2: an index has nothing to send to itself: the diff of an index with
    itself is empty. *)
Theorem compareCharts_self (A : ChartData) : compareCharts A A = ∅.
Proof.
  apply map_eq. intros c. rewrite lookup_empty.
  by apply compareCharts_lookup_None.
Qed.

(** X3: the diff goes one way: its keys are charts of the source, so a
    chart that only the destination has is never in it, and the diff of the
    empty source is empty. *)
Theorem compareCharts_keys_of_source (A B : ChartData) :
  dom (compareCharts A B) ⊆ dom A ∧ compareCharts ∅ B = ∅.
Proof.
  split.
  - intros c. rewrite !elem_of_dom, compareCharts_lookup.
    destruct (A !! c); simpl; [by eauto|]. by intros [? ?].
  - apply map_eq. intros c. by rewrite compareCharts_lookup, !lookup_empty.
Qed.

(** X4: the destination index counts only through the set of version
    strings of each chart: order, repetitions, and whether a chart is
    absent or has no record make no difference. *)
Theorem compareCharts_destination_as_sets (A B B' : ChartData) :
  (∀ c v, v ∈ versionsOf B c ↔ v ∈ versionsOf B' c) →
  compareCharts A B = compareCharts A B'.
Proof.
  intros Hsame. apply map_eq. intros c. rewrite !compareCharts_lookup.
  destruct (A !! c) as [versions1|]; simpl; [|done].
  f_equal. unfold missing. apply list_filter_iff. intros v.
  by rewrite Hsame.
Qed.

Lemma versionsOf_destRepeated (c v : string) :
  v ∈ versionsOf destRepeated c ↔ c = "app" ∧ v = "1.0.0".
Proof.
  unfold versionsOf, destRepeated.
  destruct (decide (c = "app")) as [->|Hne].
  - rewrite lookup_singleton_eq. simpl.
    rewrite !elem_of_cons, elem_of_nil. tauto.
  - rewrite lookup_singleton_ne by done. simpl.
    rewrite elem_of_nil. tauto.
Qed.

Lemma versionsOf_destPlain (c v : string) :
  v ∈ versionsOf destPlain c ↔ c = "app" ∧ v = "1.0.0".
Proof.
  unfold versionsOf, destPlain.
  destruct (decide (c = "db")) as [->|Hdb].
  { rewrite lookup_insert_eq. simpl. rewrite elem_of_nil.
    split; [done|]. by intros [? _]. }
  rewrite lookup_insert_ne by done.
  destruct (decide (c = "app")) as [->|Hne].
  - rewrite lookup_singleton_eq. simpl.
    rewrite !elem_of_cons, elem_of_nil. tauto.
  - rewrite lookup_singleton_ne by done. simpl.
    rewrite elem_of_nil. tauto.
Qed.

(** A destination that repeats a version, and one that has an empty
    chart besides. *)
Lemma compareCharts_destination_as_sets_witness :
  compareCharts sourceIndex destRepeated = compareCharts sourceIndex destPlain.
Proof.
  apply compareCharts_destination_as_sets. intros c v.
  by rewrite versionsOf_destRepeated, versionsOf_destPlain.
Defined.

(** X5: the diff is empty exactly when the destination has every version
    string of every chart of the source. *)
Theorem compareCharts_empty_iff (A B : ChartData) :
  compareCharts A B = ∅ ↔
    ∀ c v, v ∈ versionsOf A c → v ∈ versionsOf B c.
Proof.
  split.
  - intros Hempty c. apply compareCharts_lookup_None.
    by rewrite Hempty, lookup_empty.
  - intros Hall. apply map_eq. intros c. rewrite lookup_empty.
    apply compareCharts_lookup_None, Hall.
Qed.

(** X6: once the destination holds what it had and what the diff lists,
    the next diff is empty: a second run finds nothing to transfer. *)
Theorem compareCharts_converges (A B B' : ChartData) :
  (∀ c v, v ∈ versionsOf B c ∨ v ∈ diffVersions A B c → v ∈ versionsOf B' c) →
  compareCharts A B' = ∅.
Proof.
  intros Hafter. apply compareCharts_empty_iff. intros c v Hin.
  apply Hafter. destruct (decide (v ∈ versionsOf B c)) as [|Hout]; [by left|].
  right. rewrite diffVersions_missing. by apply elem_of_missing.
Qed.

(** The sample source against a destination that received the diff. *)
Lemma compareCharts_converges_witness :
  compareCharts sourceIndex destAfter = ∅.
Proof.
  apply (compareCharts_converges sourceIndex destPlain destAfter).
  intros c v. rewrite versionsOf_destPlain, diffVersions_missing.
  rewrite elem_of_missing, versionsOf_destPlain.
  unfold versionsOf, sourceIndex, destAfter, appEntry, dbEntry. simpl.
  destruct (decide (c = "db")) as [->|Hdb].
  { rewrite !lookup_insert_eq, lookup_insert_ne, lookup_insert_eq by done.
    simpl. rewrite !elem_of_cons, !elem_of_nil.
    intros [[? _]|[? _]]; [done|tauto]. }
  destruct (decide (c = "app")) as [->|Happ].
  { rewrite lookup_insert_eq, lookup_insert_ne, lookup_singleton_eq by done.
    simpl. rewrite !elem_of_cons, !elem_of_nil. intros [[_ ->]|[? _]]; tauto. }
  rewrite !lookup_insert_ne, !lookup_empty by done. simpl.
  rewrite elem_of_nil. intros [[? _]|[? _]]; done.
Defined.

End diff_more.

(** ** Runs of syncCharts *)

Section run_facts.
Import Sync Claims Coverage.

(** *** Relations that every step of a run keeps *)

Section keeps.
Context (R : relation world) `{!PreOrder R}.

Lemma keeps_ret {A} (a : A) : keeps R (mret a).
Proof. intros w. simpl. reflexivity. Qed.

Lemma keeps_panic {A} (msg : string) : keeps R (panic msg : M A).
Proof. intros w. simpl. reflexivity. Qed.

Lemma keeps_bind {A B} (m : M A) (f : A → M B) :
  keeps R m → (∀ a, keeps R (f a)) → keeps R (m ≫= f).
Proof.
  intros Hm Hf w. unfold mbind, M_bind.
  specialize (Hm w). destruct (m w) as [[a|msg] w1]; simpl in *; [|done].
  by etrans; [|apply Hf].
Qed.

Lemma keeps_forEach {A S} (body : A → S → M S) (items : list A) (s : S) :
  (∀ x s, keeps R (body x s)) → keeps R (forEach body items s).
Proof.
  intros Hbody. revert s. induction items as [|x rest IH]; intros s; simpl.
  - apply keeps_ret.
  - apply keeps_bind; [apply Hbody|apply IH].
Qed.

End keeps.

Lemma uploadsFollowFetches_app (server1 postURL : string)
    (log1 log2 : list (request * reply)) :
  uploadsFollowFetches server1 postURL log1 →
  uploadsFollowFetches server1 postURL log2 →
  uploadsFollowFetches server1 postURL (log1 ++ log2).
Proof.
  intros H1 H2 i url contentType data answer Hi.
  apply lookup_app_Some in Hi as [Hi|[Hlen Hi]].
  - destruct (H1 _ _ _ _ _ Hi) as (? & ? & j & chart & version & r & ? & Hj & ?).
    split_and!; [done..|]. exists j, chart, version, r.
    split_and!; try tauto. by apply lookup_app_l_Some.
  - destruct (H2 _ _ _ _ _ Hi) as (? & ? & j & chart & version & r & Hij & Hj & ?).
    split_and!; [done..|]. exists (length log1 + j)%nat, chart, version, r.
    split_and!; try tauto; [lia|].
    by rewrite lookup_app_r, Nat.add_comm, Nat.add_sub by lia.
Qed.

#[local] Instance orderly_preorder (server1 postURL : string) :
  PreOrder (orderly server1 postURL).
Proof.
  split.
  - intros w. exists []. split_and!.
    + by rewrite app_nil_r.
    + by intros i ? ? ? ? ?.
    + intros id ?. by left.
  - intros w1 w2 w3 (log1 & Hlog1 & Hup1 & Hleak1) (log2 & Hlog2 & Hup2 & Hleak2).
    exists (log1 ++ log2). split_and!.
    + by rewrite Hlog2, Hlog1, app_assoc.
    + by apply uploadsFollowFetches_app.
    + intros id Hid. destruct (Hleak2 id Hid) as [Hid2|(Hlen & url & r & Hat & ?)].
      * destruct (Hleak1 id Hid2) as [?|(Hlen & url & r & Hat & ?)]; [by left|].
        right. split; [done|]. exists url, r. split; [|done].
        rewrite Hlog2. by apply lookup_app_l_Some.
      * right. split; [|by eauto].
        rewrite Hlog1, length_app in Hlen. lia.
Qed.

Lemma orderly_intro (server1 postURL : string) (w w' : world)
    (log : list (request * reply)) :
  exchanges w' = exchanges w ++ log →
  uploadsFollowFetches server1 postURL log →
  (∀ id, id ∈ openBodies w' →
     id ∈ openBodies w ∨
     ∃ url r, id = length (exchanges w) ∧ head log = Some (GET url, Answered r)
              ∧ StatusCode r ≠ 200) →
  orderly server1 postURL w w'.
Proof.
  intros Hlog Hup Hopen. exists log. split_and!; [done..|].
  intros id Hid. destruct (Hopen id Hid) as [?|(url & r & -> & Hhead & ?)];
    [by left|right].
  split; [done|]. exists url, r. split; [|done].
  rewrite Hlog. destruct log as [|x rest]; simplify_eq/=.
  by rewrite list_lookup_middle.
Qed.

Lemma uploadsFollowFetches_nil (server1 postURL : string) :
  uploadsFollowFetches server1 postURL [].
Proof. by intros i ? ? ? ? ?. Qed.

Lemma uploadsFollowFetches_fetch (server1 postURL url : string) (a : reply) :
  uploadsFollowFetches server1 postURL [(GET url, a)].
Proof. intros [|[|i]] ? ? ? ? ?; simplify_eq/=. Qed.

Lemma uploadsFollowFetches_pair (server1 postURL chart version : string)
    (r : Response) (a : reply) :
  StatusCode r = 200 →
  BodyErr r = None →
  uploadsFollowFetches server1 postURL
    [(GET (archiveURL server1 chart version), Answered r);
     (POST postURL "application/gzip" (Body r), a)].
Proof.
  intros Hstatus Hread [|[|i]] ? ? ? ? ?; simplify_eq/=.
  split_and!; [done..|]. by exists 0%nat, chart, version, r.
Qed.

Lemma println_orderly (server1 postURL : string) (l : line) :
  keeps (orderly server1 postURL) (println l).
Proof.
  intros w. apply (orderly_intro _ _ _ _ []); simpl.
  - by rewrite app_nil_r.
  - apply uploadsFollowFetches_nil.
  - intros id ?. by left.
Qed.

Lemma fetchCharts_orderly E (server1 postURL url : string) :
  keeps (orderly server1 postURL) (fetchCharts E url).
Proof.
  intros w.
  unfold fetchCharts, httpGet, roundTrip, closeBody, deref. run.
  repeat (case_match; simpl in *; simplify_eq).
  all: first
    [ apply (orderly_intro _ _ _ _ []); simpl;
      [by rewrite app_nil_r|apply uploadsFollowFetches_nil|]
    | eapply orderly_intro; simpl;
      [reflexivity|apply uploadsFollowFetches_fetch|] ].
  all: intros id Hid; left; set_solver.
Qed.

Lemma transfer_orderly E (server1 server2 chart version : string) loc :
  keeps (orderly server1 (server2 +:+ "/api/charts"))
    (transfer E server1 server2 chart version loc).
Proof.
  intros w.
  unfold transfer, httpGet, roundTrip, errOrStatusNot, closeBody, deref,
    readAll, newRequest.
  run. fold (archiveURL server1 chart version).
  repeat (case_match; simpl in *; simplify_eq).
  all: rewrite <- ?app_assoc; simpl.
  all: repeat case_bool_decide; simplify_eq/=.
  all: try (destruct (BodyErr _) eqn:?; simplify_eq/=).
  all: first
    [ apply (orderly_intro _ _ _ _ []); simpl;
      [by rewrite app_nil_r|apply uploadsFollowFetches_nil|]
    | eapply orderly_intro; simpl;
      [reflexivity|by apply uploadsFollowFetches_pair|]
    | eapply orderly_intro; simpl;
      [reflexivity|apply uploadsFollowFetches_fetch|] ].
  all: intros id Hid.
  all: try (left; set_solver).
  apply elem_of_union in Hid as [Hid|Hid]; [right|by left].
  apply elem_of_singleton in Hid. by eauto.
Qed.

(** The two loops, and the whole of [syncCharts], keep the relation. *)
Lemma syncCharts_orderly E (server1 server2 : string) :
  keeps (orderly server1 (server2 +:+ "/api/charts"))
    (syncCharts E server1 server2).
Proof.
  unfold syncCharts.
  apply keeps_bind; [apply _|apply fetchCharts_orderly|intros [data1 err1]].
  apply keeps_bind; [apply _|apply fetchCharts_orderly|intros [data2 err2]].
  destruct (notNil err1 || notNil err2).
  - apply keeps_bind; [apply _|apply println_orderly|intros _].
    apply keeps_ret, _.
  - apply keeps_bind; [apply _| |intros loc; apply keeps_ret, _].
    unfold transferAll. apply keeps_forEach; [apply _|]. intros entry loc.
    apply keeps_forEach; [apply _|]. intros version loc'.
    apply transfer_orderly.
Qed.

(** X11: in every run of [syncCharts], returning or not, every upload is
    a POST to [server2/api/charts] with content type [application/gzip]
    that directly follows the fetch of an archive from [server1] answered
    with status 200 and read to its end, and that carries the body of that
    answer: nothing is uploaded that was not just fetched. *)
Theorem syncCharts_uploads_follow_fetches E (server1 server2 : string) w :
  ∃ log,
    exchanges (syncCharts E server1 server2 w).2 = exchanges w ++ log ∧
    uploadsFollowFetches server1 (server2 +:+ "/api/charts") log.
Proof.
  destruct (syncCharts_orderly E server1 server2 w) as (log & ? & ? & _).
  by exists log.
Qed.


(** *** The listing and the probe *)

(** What a call of [fetchCharts] does to the world. *)
Lemma fetchCharts_effects E (url : string) w :
  ∃ data err w',
    fetchCharts E url w = (Done (data, err), w') ∧
    (err ≠ None → data = ∅) ∧
    stdout w' = stdout w ∧
    openBodies w' ⊆ openBodies w ∧
    match urlError E (url +:+ "/api/charts") with
    | Some _ => exchanges w' = exchanges w
    | None =>
        ∃ answer,
          exchanges w' = exchanges w ++ [(GET (url +:+ "/api/charts"), answer)]
    end.
Proof.
  unfold fetchCharts, httpGet, roundTrip, closeBody, deref. run.
  repeat (case_match; simpl in *; simplify_eq).
  all: eexists _, _, _; split; [reflexivity|]; simpl.
  all: split_and!; [done|done|set_solver|by eauto].
Qed.

(** X7: [fetchCharts] always returns; with an error it returns the nil
    map; it prints nothing, sends at most the one GET of [url/api/charts],
    and leaves no body open that was not open before. *)
Theorem fetchCharts_discipline E (url : string) w :
  ∃ data err w',
    fetchCharts E url w = (Done (data, err), w') ∧
    (err ≠ None → data = ∅) ∧
    stdout w' = stdout w ∧
    openBodies w' ⊆ openBodies w ∧
    (exchanges w' = exchanges w ∨
     ∃ answer,
       exchanges w' = exchanges w ++ [(GET (url +:+ "/api/charts"), answer)]).
Proof.
  destruct (fetchCharts_effects E url w)
    as (data & err & w' & Hrun & Hnil & Hout & Hopen & Hlog).
  exists data, err, w'. split_and!; [done..|].
  destruct (urlError E _); [by left|by right].
Qed.

(** X8: [fetchCharts] returns an index without error exactly when the URL
    parses, the GET is answered without error, and the body of the answer
    decodes as a chart index; the index it returns is the decoded one, and
    the status code of the answer plays no part. *)
Theorem fetchCharts_succeeds_iff E (url : string) w (data : ChartData) :
  (∃ w', fetchCharts E url w = (Done (data, None), w')) ↔
    urlError E (url +:+ "/api/charts") = None ∧
    ∃ r, net E (history w (GET (url +:+ "/api/charts"))) = Answered r ∧
         decodeCharts (Body r) = inl data.
Proof.
  unfold history, fetchCharts, httpGet, roundTrip, closeBody, deref. run.
  split.
  - intros [w' Hrun].
    repeat (case_match; simpl in *; simplify_eq). by eauto.
  - intros (Hurl & r & Hnet & Hdecode). rewrite Hurl. simpl.
    rewrite Hnet. simpl. rewrite Hdecode. by eauto.
Qed.

(** What a call of [checkInfoEndpoint] does to the world. *)
Lemma checkInfoEndpoint_effects E (u : string) w :
  ∃ result w',
    checkInfoEndpoint E u w = (Done result, w') ∧
    stdout w' = stdout w ∧
    openBodies w' ⊆ openBodies w ∧
    (exchanges w' = exchanges w ∨
     ∃ answer, exchanges w' = exchanges w ++ [(GET u, answer)]).
Proof.
  unfold checkInfoEndpoint, httpGet, roundTrip, closeBody, deref. run.
  repeat (case_match; simpl in *; simplify_eq).
  all: eexists _, _; split; [reflexivity|]; simpl.
  all: split_and!; [done|set_solver|by eauto].
Qed.

(** X9: [checkInfoEndpoint] always returns; it prints nothing, sends at
    most the one GET of its URL, and leaves no body open that was not open
    before: the deferred close runs on every path. *)
Theorem checkInfoEndpoint_discipline E (u : string) w :
  ∃ result w',
    checkInfoEndpoint E u w = (Done result, w') ∧
    stdout w' = stdout w ∧
    openBodies w' ⊆ openBodies w ∧
    (exchanges w' = exchanges w ∨
     ∃ answer, exchanges w' = exchanges w ++ [(GET u, answer)]).
Proof. apply checkInfoEndpoint_effects. Qed.

(** X10: the probe fails with "error making request" exactly when no
    response can be used: the URL does not parse (nothing is sent then),
    or the GET fails, with or without a response of a refused redirect. *)
Theorem probe_request_error_iff E (u : string) w :
  (∃ e, probe E u w = Done (Some (MakingRequest e))) ↔
    is_Some (urlError E u) ∨
    (∃ msg, net E (history w (GET u)) = Failed msg) ∨
    (∃ r msg, net E (history w (GET u)) = Refused r msg).
Proof.
  unfold probe, history, checkInfoEndpoint, httpGet, roundTrip, closeBody,
    deref.
  run. split.
  - intros [e Hrun].
    repeat (case_match; simpl in *; simplify_eq); by eauto.
  - intros [[msg Hurl]|[[msg Hnet]|(r & msg & Hnet)]].
    + rewrite Hurl. by eauto.
    + destruct (urlError E u); simpl; [by eauto|].
      rewrite Hnet. by eauto.
    + destruct (urlError E u); simpl; [by eauto|].
      rewrite Hnet. by eauto.
Qed.

(** *** The transfer loop when it returns *)

(** A loop that returns relates its first and last state by the relation
    its passes keep, along the items the passes stand for. *)
Lemma forEach_trace {A B S} (flat : A → list B)
    (R : list B → S * world → S * world → Prop)
    (body : A → S → M S) (items : list A) :
  (∀ p, R [] p p) →
  (∀ k1 k2 p q r, R k1 p q → R k2 q r → R (k1 ++ k2) p r) →
  (∀ x s w s' w', body x s w = (Done s', w') → R (flat x) (s, w) (s', w')) →
  ∀ s w s' w',
    forEach body items s w = (Done s', w') →
    R (items ≫= flat) (s, w) (s', w').
Proof.
  intros Hrefl Htrans Hbody.
  induction items as [|x rest IH]; intros s w s' w' Hrun.
  - simpl in Hrun. unfold mret, M_ret in Hrun. simplify_eq. apply Hrefl.
  - rewrite bind_cons. simpl in Hrun. unfold mbind, M_bind in Hrun.
    destruct (body x s w) as [[s1|msg] w1] eqn:Hpass; [|done].
    eapply Htrans; [by apply Hbody|by apply IH].
Qed.

Lemma bind_singleton_fmap {A B} (f : A → B) (l : list A) :
  l ≫= (λ x, [f x]) = f <$> l.
Proof. induction l as [|x rest IH]; [done|]. by rewrite bind_cons, IH. Qed.

Lemma transferAll_trace E (server1 server2 : string)
    (R : list (string * string) → locals * world → locals * world → Prop)
    (entries : list (string * list string)) :
  (∀ p, R [] p p) →
  (∀ k1 k2 p q r, R k1 p q → R k2 q r → R (k1 ++ k2) p r) →
  (∀ chart version loc w loc' w',
     transfer E server1 server2 chart version loc w = (Done loc', w') →
     R [(chart, version)] (loc, w) (loc', w')) →
  ∀ loc w loc' w',
    transferAll E server1 server2 entries loc w = (Done loc', w') →
    R (pairs entries) (loc, w) (loc', w').
Proof.
  intros Hrefl Htrans Hpass loc w loc' w' Hrun.
  unfold pairs. unfold transferAll in Hrun.
  refine (forEach_trace
            (λ entry : string * list string,
               (λ version, (entry.1, version)) <$> entry.2)
            R _ _ Hrefl Htrans _ _ _ _ _ Hrun).
  intros entry loc1 w1 loc2 w2 Hinner. rewrite <- bind_singleton_fmap.
  refine (forEach_trace (λ version, [(entry.1, version)]) R _ _ Hrefl Htrans
            _ _ _ _ _ Hinner).
  intros version ? ? ? ?. apply Hpass.
Qed.

Lemma transfer_accounted E (server1 server2 chart version : string)
    loc w loc' w' :
  transfer E server1 server2 chart version loc w = (Done loc', w') →
  accounted [(chart, version)] (loc, w) (loc', w').
Proof.
  unfold accounted, transfer, httpGet, roundTrip, errOrStatusNot, closeBody,
    deref, readAll, newRequest.
  run. intros Hrun.
  repeat (case_match; simpl in *; simplify_eq).
  all: rewrite ?length_app; simpl; lia.
Qed.

Lemma transfer_attempted E (server1 server2 chart version : string)
    loc w loc' w' :
  (∀ url, urlError E url = None) →
  transfer E server1 server2 chart version loc w = (Done loc', w') →
  attempted server1 [(chart, version)] (loc, w) (loc', w').
Proof.
  intros Hurl.
  unfold attempted, transfer, httpGet, roundTrip, errOrStatusNot, closeBody,
    deref, readAll, newRequest.
  rewrite !Hurl. run. fold (archiveURL server1 chart version). intros Hrun.
  repeat (case_match; simpl in *; simplify_eq).
  all: eexists; simpl; rewrite <- ?app_assoc; simpl.
  all: by split; [reflexivity|].
Qed.

Lemma fetchURLs_app (log1 log2 : list (request * reply)) :
  fetchURLs (log1 ++ log2) = fetchURLs log1 ++ fetchURLs log2.
Proof. apply omap_app. Qed.

Lemma countTransfers_pairs (entries : list (string * list string)) :
  countTransfers entries = Z.of_nat (length (pairs entries)).
Proof.
  unfold countTransfers, pairs. rewrite countTransfers_from.
  induction entries as [|entry rest IH]; [done|].
  rewrite bind_cons, length_app, length_fmap. simpl. lia.
Qed.

(** What a run of [syncCharts] that reaches the end of the loop went
    through. *)
Lemma syncCharts_Some_inv E (server1 server2 : string) w loc w' :
  syncCharts E server1 server2 w = (Done (Some loc), w') →
  ∃ data1 w1 data2 w2,
    fetchCharts E server1 w = (Done (data1, None), w1) ∧
    fetchCharts E server2 w1 = (Done (data2, None), w2) ∧
    transferAll E server1 server2
      (rangeOrder E (compareCharts data1 data2))
      (mkLocals 0
         (Default (countTransfers (rangeOrder E (compareCharts data1 data2)))
            "Syncing Charts"))
      w2
    = (Done loc, w').
Proof.
  unfold syncCharts, mbind, M_bind. intros Hrun.
  destruct (fetchCharts E server1 w) as [[[data1 err1]|msg] w1] eqn:Hfetch1;
    [|done].
  destruct (fetchCharts E server2 w1) as [[[data2 err2]|msg] w2] eqn:Hfetch2;
    [|done].
  destruct err1 as [e|]; [done|]. destruct err2 as [e|]; [done|].
  simpl in Hrun.
  destruct (transferAll _ _ _ _ _ _) as [[loc1|msg] w3] eqn:Hloop; [|done].
  unfold mret, M_ret in Hrun. simplify_eq.
  by exists data1, w1, data2, w2.
Qed.

Lemma accounted_refl (p : locals * world) : accounted [] p p.
Proof. unfold accounted. simpl. lia. Qed.

Lemma attempted_refl (server1 : string) (p : locals * world) :
  attempted server1 [] p p.
Proof. exists []. by rewrite app_nil_r. Qed.

Lemma accounted_trans (k1 k2 : list (string * string))
    (p q r : locals * world) :
  accounted k1 p q → accounted k2 q r → accounted (k1 ++ k2) p r.
Proof. unfold accounted. rewrite length_app. lia. Qed.

Lemma attempted_trans (server1 : string) (k1 k2 : list (string * string))
    (p q r : locals * world) :
  attempted server1 k1 p q → attempted server1 k2 q r →
  attempted server1 (k1 ++ k2) p r.
Proof.
  intros (log1 & Hlog1 & Hurls1) (log2 & Hlog2 & Hurls2).
  exists (log1 ++ log2). split.
  - by rewrite Hlog2, Hlog1, app_assoc.
  - by rewrite fetchURLs_app, fmap_app, Hurls1, Hurls2.
Qed.

(** X13: when [syncCharts] returns after the loop, every diffed item is
    accounted for: the synced count and the number of lines printed during
    the run add up to the total the progress tracker was set up with, one
    line for each item that is not counted as synced. *)
Theorem syncCharts_accounts_for_every_item E (server1 server2 : string)
    w loc w' :
  syncCharts E server1 server2 w = (Done (Some loc), w') →
  chartsSynced loc + Z.of_nat (length (stdout w'))
  = Z.of_nat (length (stdout w)) + barMax (bar loc).
Proof.
  intros (data1 & w1 & data2 & w2 & Hfetch1 & Hfetch2 & Hloop)%syncCharts_Some_inv.
  assert (stdout w1 = stdout w) as Hout1.
  { destruct (fetchCharts_effects E server1 w) as (? & ? & ? & Hrun & _ & ? & _).
    rewrite Hfetch1 in Hrun. by simplify_eq. }
  assert (stdout w2 = stdout w1) as Hout2.
  { destruct (fetchCharts_effects E server2 w1) as (? & ? & ? & Hrun & _ & ? & _).
    rewrite Hfetch2 in Hrun. by simplify_eq. }
  set (entries := rangeOrder E (compareCharts data1 data2)) in *.
  pose proof (transferAll_trace E server1 server2 accounted entries)
    as Haccounted.
  specialize (Haccounted accounted_refl accounted_trans
                (transfer_accounted E server1 server2) _ _ _ _ Hloop).
  destruct (transferAll_advances E server1 server2 entries
              (mkLocals 0 (Default (countTransfers entries) "Syncing Charts"))
              w2) as (log & _ & _ & _ & Hloc).
  rewrite Hloop in Hloc. destruct (Hloc loc eq_refl) as (Hmax & _).
  unfold accounted in Haccounted. simpl in *.
  rewrite Hout2, Hout1 in Haccounted.
  rewrite Hmax, countTransfers_pairs. lia.
Qed.

(** A run in which one of two items fails. *)
Lemma syncCharts_accounts_for_every_item_witness :
  1 + Z.of_nat (length (stdout (syncCharts archiveMissing "http://source:8080"
                                  "http://dest:8080" start).2))
  = Z.of_nat (length (stdout start)) + 2.
Proof.
  apply (syncCharts_accounts_for_every_item archiveMissing
           "http://source:8080" "http://dest:8080" start
           (mkLocals 1 (mkBar 2 1 "app-1.1.0"))).
  vm_compute. reflexivity.
Defined.

(** X14: when all URLs parse and [syncCharts] returns after the loop, the
    GET requests that follow the two listings are the requests for the
    archives of the diffed (chart, version) pairs at [server1], one for each
    pair, in the order in which the loops visit the diff; these pairs are
    the pairs of the diff, each once. *)
Theorem syncCharts_attempts_every_item E (server1 server2 : string)
    w loc w' :
  (∀ url, urlError E url = None) →
  syncCharts E server1 server2 w = (Done (Some loc), w') →
  ∃ data1 w1 data2 w2 log,
    fetchCharts E server1 w = (Done (data1, None), w1) ∧
    fetchCharts E server2 w1 = (Done (data2, None), w2) ∧
    exchanges w' = exchanges w2 ++ log ∧
    fetchURLs log
      = (λ item, archiveURL server1 item.1 item.2)
          <$> pairs (rangeOrder E (compareCharts data1 data2)) ∧
    pairs (rangeOrder E (compareCharts data1 data2))
      ≡ₚ pairs (map_to_list (compareCharts data1 data2)).
Proof.
  intros Hurl
    (data1 & w1 & data2 & w2 & Hfetch1 & Hfetch2 & Hloop)%syncCharts_Some_inv.
  set (entries := rangeOrder E (compareCharts data1 data2)) in *.
  pose proof (transferAll_trace E server1 server2 (attempted server1) entries)
    as Hattempted.
  destruct (Hattempted (attempted_refl server1) (attempted_trans server1)
              (λ chart version loc w loc' w',
                 transfer_attempted E server1 server2 chart version
                   loc w loc' w' Hurl)
              _ _ _ _ Hloop) as (log & Hlog & Hurls).
  exists data1, w1, data2, w2, log. split_and!; [done..|].
  unfold pairs, entries. by rewrite (rangeOrder_perm E).
Qed.

(** The requests of the run in which one of two items fails. *)
Lemma syncCharts_attempts_every_item_witness :
  ∃ data1 w1 data2 w2 log,
    fetchCharts archiveMissing "http://source:8080" start
      = (Done (data1, None), w1) ∧
    fetchCharts archiveMissing "http://dest:8080" w1
      = (Done (data2, None), w2) ∧
    exchanges (syncCharts archiveMissing "http://source:8080"
                 "http://dest:8080" start).2
      = exchanges w2 ++ log ∧
    fetchURLs log
      = (λ item, archiveURL "http://source:8080" item.1 item.2)
          <$> pairs (rangeOrder archiveMissing (compareCharts data1 data2)) ∧
    pairs (rangeOrder archiveMissing (compareCharts data1 data2))
      ≡ₚ pairs (map_to_list (compareCharts data1 data2)).
Proof.
  apply (syncCharts_attempts_every_item archiveMissing
           "http://source:8080" "http://dest:8080" start
           (mkLocals 1 (mkBar 2 1 "app-1.1.0"))).
  - intros url. reflexivity.
  - vm_compute. reflexivity.
Defined.

(** X15: when [syncCharts] returns before the loop, a listing returned an
    error: the one line it prints carries the two errors, of which one at
    least is not nil; nothing was requested but the listings, both of them
    when their URLs parse, the second also when the first failed; and no
    body is left open. *)
Theorem syncCharts_abort E (server1 server2 : string) w w' :
  syncCharts E server1 server2 w = (Done None, w') →
  ∃ err1 err2 log,
    (err1 ≠ None ∨ err2 ≠ None) ∧
    stdout w' = stdout w ++ [ErrorFetchingCharts err1 err2] ∧
    openBodies w' ⊆ openBodies w ∧
    exchanges w' = exchanges w ++ log ∧
    (∀ x, x ∈ log →
       x.1 = GET (server1 +:+ "/api/charts") ∨
       x.1 = GET (server2 +:+ "/api/charts")) ∧
    (urlError E (server1 +:+ "/api/charts") = None →
     urlError E (server2 +:+ "/api/charts") = None →
     log.*1 = [GET (server1 +:+ "/api/charts");
               GET (server2 +:+ "/api/charts")]).
Proof.
  unfold syncCharts, mbind, M_bind.
  destruct (fetchCharts_effects E server1 w)
    as (data1 & err1 & w1 & -> & _ & Hout1 & Hopen1 & Hlog1).
  destruct (fetchCharts_effects E server2 w1)
    as (data2 & err2 & w2 & -> & _ & Hout2 & Hopen2 & Hlog2).
  intros Hrun.
  destruct (notNil err1 || notNil err2) eqn:Herr.
  - unfold println, mret, M_ret in Hrun. simplify_eq/=.
    assert (∃ log1 log2,
              exchanges w1 = exchanges w ++ log1 ∧
              exchanges w2 = exchanges w1 ++ log2 ∧
              (log1 = [] ∨ ∃ a, log1 = [(GET (server1 +:+ "/api/charts"), a)]) ∧
              (log2 = [] ∨ ∃ a, log2 = [(GET (server2 +:+ "/api/charts"), a)]) ∧
              (urlError E (server1 +:+ "/api/charts") = None → log1 ≠ []) ∧
              (urlError E (server2 +:+ "/api/charts") = None → log2 ≠ []))
      as (log1 & log2 & Hw1 & Hw2 & Hcase1 & Hcase2 & Hsent1 & Hsent2).
    { destruct (urlError E (server1 +:+ "/api/charts")),
        (urlError E (server2 +:+ "/api/charts")).
      - exists [], []. rewrite !app_nil_r. by eauto 10.
      - destruct Hlog2 as [a2 ?]. exists [], [(GET (server2 +:+ "/api/charts"), a2)].
        rewrite !app_nil_r. split_and!; by eauto.
      - destruct Hlog1 as [a1 ?]. exists [(GET (server1 +:+ "/api/charts"), a1)], [].
        rewrite !app_nil_r. split_and!; by eauto.
      - destruct Hlog1 as [a1 ?], Hlog2 as [a2 ?].
        exists [(GET (server1 +:+ "/api/charts"), a1)],
          [(GET (server2 +:+ "/api/charts"), a2)].
        split_and!; by eauto. }
    exists err1, err2, (log1 ++ log2). split_and!.
    + apply orb_true_iff in Herr. by destruct err1, err2, Herr; eauto.
    + by rewrite Hout2, Hout1.
    + set_solver.
    + by rewrite Hw2, Hw1, app_assoc.
    + intros x [Hx|Hx]%elem_of_app.
      * destruct Hcase1 as [->|[a ->]]; [by apply not_elem_of_nil in Hx|].
        apply list_elem_of_singleton in Hx as ->. by left.
      * destruct Hcase2 as [->|[a ->]]; [by apply not_elem_of_nil in Hx|].
        apply list_elem_of_singleton in Hx as ->. by right.
    + intros Hurl1 Hurl2.
      destruct Hcase1 as [->|[a1 ->]]; [by destruct (Hsent1 Hurl1)|].
      destruct Hcase2 as [->|[a2 ->]]; [by destruct (Hsent2 Hurl2)|].
      done.
  - simpl in Hrun. destruct (transferAll _ _ _ _ _ _) as [[loc|msg] w3]; done.
Qed.

(** Two servers that are down. *)
Lemma syncCharts_abort_witness :
  ∃ err1 err2 log,
    (err1 ≠ None ∨ err2 ≠ None) ∧
    stdout (syncCharts nobodyHome "http://source:8080" "http://dest:8080"
              start).2
      = stdout start ++ [ErrorFetchingCharts err1 err2] ∧
    openBodies (syncCharts nobodyHome "http://source:8080" "http://dest:8080"
                  start).2 ⊆ openBodies start ∧
    exchanges (syncCharts nobodyHome "http://source:8080" "http://dest:8080"
                 start).2
      = exchanges start ++ log ∧
    (∀ x, x ∈ log →
       x.1 = GET ("http://source:8080" +:+ "/api/charts") ∨
       x.1 = GET ("http://dest:8080" +:+ "/api/charts")) ∧
    (urlError nobodyHome ("http://source:8080" +:+ "/api/charts") = None →
     urlError nobodyHome ("http://dest:8080" +:+ "/api/charts") = None →
     log.*1 = [GET ("http://source:8080" +:+ "/api/charts");
               GET ("http://dest:8080" +:+ "/api/charts")]).
Proof.
  apply (syncCharts_abort nobodyHome "http://source:8080" "http://dest:8080"
           start).
  vm_compute. reflexivity.
Defined.

(** X16: when both listings succeed and the destination has every version
    of every chart of the source, [syncCharts] sends and prints nothing
    more: it returns with a synced count of 0 and a progress tracker of
    total 0 at position 0. *)
Theorem syncCharts_nothing_to_do E (server1 server2 : string)
    w data1 w1 data2 w2 :
  fetchCharts E server1 w = (Done (data1, None), w1) →
  fetchCharts E server2 w1 = (Done (data2, None), w2) →
  (∀ c v, v ∈ versionsOf data1 c → v ∈ versionsOf data2 c) →
  syncCharts E server1 server2 w
  = (Done (Some (mkLocals 0 (Default 0 "Syncing Charts"))), w2).
Proof.
  intros Hfetch1 Hfetch2 Hcovered. unfold syncCharts, mbind, M_bind.
  rewrite Hfetch1, Hfetch2. simpl.
  assert (compareCharts data1 data2 = ∅) as ->.
  { apply map_eq. intros c. rewrite lookup_empty.
    apply compareCharts_lookup_None, Hcovered. }
  assert (rangeOrder E ∅ = []) as ->.
  { apply Permutation_nil_r. by rewrite (rangeOrder_perm E), map_to_list_empty. }
  done.
Qed.

(** Two servers that hold the same chart. *)
Lemma syncCharts_nothing_to_do_witness :
  syncCharts oneChart "http://source:8080" "http://dest:8080" start
  = (Done (Some (mkLocals 0 (Default 0 "Syncing Charts"))),
     (fetchCharts oneChart "http://dest:8080"
        (fetchCharts oneChart "http://source:8080" start).2).2).
Proof.
  apply (syncCharts_nothing_to_do oneChart "http://source:8080"
           "http://dest:8080" start
           {[ "app" := [mkChartVersion "1.0.0"] ]}
           (fetchCharts oneChart "http://source:8080" start).2
           {[ "app" := [mkChartVersion "1.0.0"] ]}).
  - vm_compute. reflexivity.
  - vm_compute. reflexivity.
  - intros c v Hv. exact Hv.
Defined.

(** *** Panics *)

Lemma panicsOnly_bind {A B} (m : M A) (f : A → M B) :
  panicsOnlyAfterFailedUpload m →
  (∀ a, panicsOnlyAfterFailedUpload (f a)) →
  panicsOnlyAfterFailedUpload (m ≫= f).
Proof.
  intros Hm Hf w msg w'. unfold mbind, M_bind.
  destruct (m w) as [[a|msg1] w1] eqn:Hrun.
  - apply Hf.
  - intros ?. simplify_eq. by eapply Hm.
Qed.

Lemma panicsOnly_forEach {A S} (body : A → S → M S) (items : list A) (s : S) :
  (∀ x s, panicsOnlyAfterFailedUpload (body x s)) →
  panicsOnlyAfterFailedUpload (forEach body items s).
Proof.
  intros Hbody. revert s. induction items as [|x rest IH]; intros s; simpl.
  - by intros w msg w' ?.
  - apply panicsOnly_bind; [apply Hbody|apply IH].
Qed.

Lemma transfer_panicsOnly E (server1 server2 chart version : string) loc :
  panicsOnlyAfterFailedUpload (transfer E server1 server2 chart version loc).
Proof.
  intros w msg w'.
  unfold transfer, httpGet, roundTrip, errOrStatusNot, closeBody, deref,
    readAll, newRequest.
  run. intros Hrun.
  repeat (case_match; simpl in *; simplify_eq).
  rewrite last_snoc. by eauto.
Qed.

(** X19: [syncCharts] panics in one situation only: directly after an
    upload that failed without a response.  When it panics, the last
    exchange of the run is a POST to which the answer is an error and no
    response. *)
Theorem syncCharts_panics_only_after_failed_upload E
    (server1 server2 : string) w msg w' :
  syncCharts E server1 server2 w = (Panic msg, w') →
  ∃ url contentType data cause,
    last (exchanges w') = Some (POST url contentType data, Failed cause).
Proof.
  revert w msg w'. unfold syncCharts.
  apply panicsOnly_bind.
  { intros w msg w' Hrun.
    destruct (fetchCharts_effects E server1 w) as (? & ? & ? & Hret & _).
    by rewrite Hret in Hrun. }
  intros [data1 err1]. apply panicsOnly_bind.
  { intros w msg w' Hrun.
    destruct (fetchCharts_effects E server2 w) as (? & ? & ? & Hret & _).
    by rewrite Hret in Hrun. }
  intros [data2 err2]. destruct (notNil err1 || notNil err2).
  - by intros w msg w' ?.
  - apply panicsOnly_bind; [|by intros loc w msg w' ?].
    unfold transferAll. apply panicsOnly_forEach. intros entry loc.
    apply panicsOnly_forEach. intros version loc'.
    apply transfer_panicsOnly.
Qed.

(** The run against a destination that goes away before the upload. *)
Lemma syncCharts_panics_only_after_failed_upload_witness :
  ∃ url contentType data cause,
    last (exchanges (syncCharts uploadRefused "http://source:8080"
                       "http://dest:8080" start).2)
    = Some (POST url contentType data, Failed cause).
Proof.
  apply (syncCharts_panics_only_after_failed_upload uploadRefused
           "http://source:8080" "http://dest:8080" start
           "invalid memory address or nil pointer dereference").
  vm_compute. reflexivity.
Defined.

(** *** main *)


(** X17: when [main] ends with exit status 1, nothing was listed or
    transferred: the only requests sent are the probes of [source/info]
    and [destination/info], none at all when both flags have the default
    value; a line was printed and no body is left open. *)
Theorem main_exit_failure E (source destination : string) w w' :
  main E source destination w = (Done 1, w') →
  openBodies w' ⊆ openBodies w ∧
  (length (stdout w) < length (stdout w'))%nat ∧
  ∃ log,
    exchanges w' = exchanges w ++ log ∧
    (∀ x, x ∈ log →
       x.1 = GET (source +:+ "/info") ∨ x.1 = GET (destination +:+ "/info")) ∧
    (source = "http://localhost:8080" ∧ destination = "http://localhost:8080" →
     log = []).
Proof.
  unfold main.
  destruct (bool_decide (source = "http://localhost:8080")
            && bool_decide (destination = "http://localhost:8080")) eqn:Hflags.
  { run. intros Hrun. simplify_eq/=. split_and!; [done| |].
    - rewrite !length_app. simpl. lia.
    - exists []. split_and!; [by rewrite app_nil_r| |done].
      by intros x ?%not_elem_of_nil. }
  assert (¬ (source = "http://localhost:8080"
             ∧ destination = "http://localhost:8080")) as Hne.
  { intros [-> ->]. by rewrite !bool_decide_eq_true_2 in Hflags. }
  unfold mbind, M_bind.
  destruct (checkInfoEndpoint_effects E (source +:+ "/info") w)
    as (result1 & w1 & -> & Hout1 & Hopen1 & Hlog1).
  destruct result1 as [e1|].
  { unfold println, mret, M_ret. intros Hrun. simplify_eq/=. split_and!.
    - done.
    - rewrite length_app, Hout1. simpl. lia.
    - destruct Hlog1 as [->|[a ->]].
      + exists []. split_and!; [by rewrite app_nil_r| |done].
        by intros x ?%not_elem_of_nil.
      + eexists. split_and!; [done| |done].
        intros x ->%list_elem_of_singleton. by left. }
  destruct (checkInfoEndpoint_effects E (destination +:+ "/info") w1)
    as (result2 & w2 & -> & Hout2 & Hopen2 & Hlog2).
  destruct result2 as [e2|].
  { unfold println, mret, M_ret. intros Hrun. simplify_eq/=. split_and!.
    - set_solver.
    - rewrite length_app, Hout2, Hout1. simpl. lia.
    - assert (∃ log1 log2,
                exchanges w1 = exchanges w ++ log1 ∧
                exchanges w2 = exchanges w1 ++ log2 ∧
                (∀ x, x ∈ log1 → x.1 = GET (source +:+ "/info")) ∧
                (∀ x, x ∈ log2 → x.1 = GET (destination +:+ "/info")))
        as (log1 & log2 & Hw1 & Hw2 & Hin1 & Hin2).
      { destruct Hlog1 as [Hw1|[a1 Hw1]], Hlog2 as [Hw2|[a2 Hw2]].
        - exists [], []. rewrite !app_nil_r.
          split_and!; [done..| |]; by intros x ?%not_elem_of_nil.
        - exists [], [(GET (destination +:+ "/info"), a2)]. rewrite !app_nil_r.
          split_and!; [done..| |].
          + by intros x ?%not_elem_of_nil.
          + by intros x ->%list_elem_of_singleton.
        - exists [(GET (source +:+ "/info"), a1)], []. rewrite !app_nil_r.
          split_and!; [done..| |].
          + by intros x ->%list_elem_of_singleton.
          + by intros x ?%not_elem_of_nil.
        - exists [(GET (source +:+ "/info"), a1)],
            [(GET (destination +:+ "/info"), a2)].
          split_and!; [done..| |]; by intros x ->%list_elem_of_singleton. }
      exists (log1 ++ log2). split_and!.
      + by rewrite Hw2, Hw1, app_assoc.
      + intros x [?|?]%elem_of_app; [left; by apply Hin1|right; by apply Hin2].
      + intros ?. by destruct Hne. }
  destruct (syncCharts E source destination w2) as [[result|msg] w3]; simpl.
  - unfold mret, M_ret. intros Hrun. by simplify_eq.
  - done.
Qed.

(** A source that does not answer the probe. *)
Lemma main_exit_failure_witness :
  openBodies (main nobodyHome "http://source:8080" "http://dest:8080"
                start).2 ⊆ openBodies start ∧
  (length (stdout start)
   < length (stdout (main nobodyHome "http://source:8080" "http://dest:8080"
                       start).2))%nat ∧
  ∃ log,
    exchanges (main nobodyHome "http://source:8080" "http://dest:8080"
                 start).2 = exchanges start ++ log ∧
    (∀ x, x ∈ log →
       x.1 = GET ("http://source:8080" +:+ "/info") ∨
       x.1 = GET ("http://dest:8080" +:+ "/info")) ∧
    ("http://source:8080" = "http://localhost:8080"
     ∧ "http://dest:8080" = "http://localhost:8080" →
     log = []).
Proof.
  apply (main_exit_failure nobodyHome "http://source:8080" "http://dest:8080"
           start).
  vm_compute. reflexivity.
Defined.


End run_facts.
